(** * Verification of the user service and of the JWT demo

    Shallow embedding of
    - [examples/backend/python/user_service.py] (module [UserService]) and
    - [examples/production/jwt_auth_fastapi.py] (module [JwtAuth]).

    Python strings are sequences of Unicode code points; they are modelled
    as lists of code points ([list N]).  The two compiled patterns of the
    service are kept as regular-expression syntax trees and run by a
    derivative matcher ([Regex]); the collaborators of the service
    (repository, hasher) are interfaces over a shared world, called through
    a small state-and-exception monad that logs every call. *)

From Stdlib Require Import String Ascii.
From stdpp Require Import base numbers list strings gmap.

Local Open Scope N_scope.

(** ** Python strings *)

Abbreviation pystr := (list N).

(** The code points of a string literal. *)
Definition str (s : string) : pystr :=
  map N_of_ascii (list_ascii_of_string s).

(** The code point of a character literal. *)
Definition chr (a : ascii) : N := N_of_ascii a.

Definition NEWLINE : N := 10.

(** ** Regular expressions (the part of [re] the service uses) *)

Module Regex.

(** Syntax, as the pattern parser of [re] builds it: literals, character
    sets given by ranges, sequences, alternatives and bounded or unbounded
    greedy repetition [r{lo,hi}] ([hi = None] is "no upper bound", so
    [r+] is [Rep 1 None r] and [r{2,}] is [Rep 2 None r]).  [Void] and
    [Eps] are the results of derivation. *)
Inductive regex : Type :=
| Void
| Eps
| Chr (c : N)
| Set_ (ranges : list (N * N))
| Cat (r1 r2 : regex)
| Alt (r1 r2 : regex)
| Rep (lo : nat) (hi : option nat) (r : regex).

Definition in_range (c : N) (rg : N * N) : bool :=
  (fst rg <=? c) && (c <=? snd rg).

Definition in_set (ranges : list (N * N)) (c : N) : bool :=
  existsb (in_range c) ranges.

(** [hi] allows one more iteration. *)
Definition more (hi : option nat) : bool :=
  match hi with Some O => false | _ => true end.

Definition dec (hi : option nat) : option nat :=
  match hi with Some n => Some (Nat.pred n) | None => None end.

(** [lo] iterations fit under [hi]. *)
Definition fits (lo : nat) (hi : option nat) : bool :=
  match hi with Some n => Nat.leb lo n | None => true end.

(** The words a pattern matches in full. *)
Inductive Matches : regex -> pystr -> Prop :=
| M_eps : Matches Eps []
| M_chr c : Matches (Chr c) [c]
| M_set rs c : in_set rs c = true -> Matches (Set_ rs) [c]
| M_cat r1 r2 s1 s2 :
    Matches r1 s1 -> Matches r2 s2 -> Matches (Cat r1 r2) (s1 ++ s2)
| M_alt_l r1 r2 s : Matches r1 s -> Matches (Alt r1 r2) s
| M_alt_r r1 r2 s : Matches r2 s -> Matches (Alt r1 r2) s
| M_rep_stop hi r : Matches (Rep O hi r) []
| M_rep_step lo hi r s1 s2 :
    more hi = true ->
    Matches r s1 -> Matches (Rep (Nat.pred lo) (dec hi) r) s2 ->
    Matches (Rep lo hi r) (s1 ++ s2).

Fixpoint nullable (r : regex) : bool :=
  match r with
  | Void => false
  | Eps => true
  | Chr _ => false
  | Set_ _ => false
  | Cat r1 r2 => nullable r1 && nullable r2
  | Alt r1 r2 => nullable r1 || nullable r2
  | Rep lo hi r => Nat.eqb lo 0 || (nullable r && fits lo hi)
  end.

(** Brzozowski derivative: the words [t] such that [c :: t] matches. *)
Fixpoint deriv (c : N) (r : regex) : regex :=
  match r with
  | Void => Void
  | Eps => Void
  | Chr d => if c =? d then Eps else Void
  | Set_ rs => if in_set rs c then Eps else Void
  | Cat r1 r2 =>
      if nullable r1
      then Alt (Cat (deriv c r1) r2) (deriv c r2)
      else Cat (deriv c r1) r2
  | Alt r1 r2 => Alt (deriv c r1) (deriv c r2)
  | Rep lo hi r =>
      if more hi
      then Cat (deriv c r) (Rep (Nat.pred lo) (dec hi) r)
      else Void
  end.

(** The matcher: does the whole of [s] match [r]?  The engine of [re]
    backtracks; for this syntax (no groups referred back to, no lookaround)
    it finds a match exactly when one exists, which is what derivation
    decides. *)
Fixpoint matches (r : regex) (s : pystr) : bool :=
  match s with
  | [] => nullable r
  | c :: t => matches (deriv c r) t
  end.

(** [s] without its last character, when that character is a newline. *)
Definition chomp (s : pystr) : option pystr :=
  match reverse s with
  | c :: t => if c =? NEWLINE then Some (reverse t) else None
  | [] => None
  end.

(** [match_anchored r s] is [re.compile("^" r "$").match(s) is not None].
    [match] starts at the beginning of the string; without the MULTILINE
    flag, ["$"] matches at the end of the string and also just before a
    newline that is the last character of the string. *)
Definition match_anchored (r : regex) (s : pystr) : bool :=
  matches r s ||
  match chomp s with
  | Some t => matches r t
  | None => false
  end.

End Regex.

(** ** The user service *)

Module UserService.
Import Regex.

(** *** Data *)

(** [UserDTO], a frozen dataclass.  [created_at] is a timestamp. *)
Record UserDTO : Type := {
  id : Z;
  username : pystr;
  email : pystr;
  created_at : Z
}.

(** The exception classes of the module; [OtherError] stands for whatever
    else a collaborator raises. *)
Inductive exn : Type :=
| InvalidEmailError (msg : pystr)
| InvalidUsernameError (msg : pystr)
| WeakPasswordError (msg : pystr)
| UserAlreadyExistsError (msg : pystr)
| OtherError (msg : pystr).

(** How a call ends. *)
Inductive outcome (A : Type) : Type :=
| Returned (a : A)
| Raised (e : exn).
Arguments Returned {A} a.
Arguments Raised {A} e.

(** The failure kinds of the specification. *)
Inductive failure : Type :=
| InvalidUsername | InvalidEmail | WeakPassword | AlreadyExists | Propagated.

Definition failure_of (e : exn) : failure :=
  match e with
  | InvalidEmailError _ => InvalidEmail
  | InvalidUsernameError _ => InvalidUsername
  | WeakPasswordError _ => WeakPassword
  | UserAlreadyExistsError _ => AlreadyExists
  | OtherError _ => Propagated
  end.

Definition failure_of_outcome {A} (o : outcome A) : option failure :=
  match o with
  | Returned _ => None
  | Raised e => Some (failure_of e)
  end.

(** [fails_with o k]: the call raised an exception of kind [k]. *)
Definition fails_with {A} (o : outcome A) (k : failure) : Prop :=
  exists e, o = Raised e /\ failure_of e = k.

(** *** Character classes of [str]

    [str.isupper], [str.islower] and [str.isdigit] on one character read
    the Unicode character database of the interpreter, which is not part
    of the repository: it is an interface whose laws fix the ASCII rows. *)
Class CharDB : Type := {
  isupper : N -> bool;
  islower : N -> bool;
  isdigit : N -> bool;
  isupper_ascii c : c < 128 -> isupper c = (65 <=? c) && (c <=? 90);
  islower_ascii c : c < 128 -> islower c = (97 <=? c) && (c <=? 122);
  isdigit_ascii c : c < 128 -> isdigit c = (48 <=? c) && (c <=? 57)
}.

(** A table with the ASCII rows only: on ASCII input it answers as the
    interpreter does. *)
#[refine] Instance ascii_rows : CharDB := {|
  isupper c := (65 <=? c) && (c <=? 90);
  islower c := (97 <=? c) && (c <=? 122);
  isdigit c := (48 <=? c) && (c <=? 57)
|}.
Proof. all: reflexivity. Defined.

(** *** Collaborators

    [UserRepository] and [PasswordHasher] are protocols: any object with
    these methods will do.  Their methods may read and change a world
    (a database, a source of salt) and may raise. *)
Class UserRepository (World : Type) : Type := {
  save : pystr -> pystr -> pystr -> World -> outcome UserDTO * World;
  find_by_id : Z -> World -> outcome (option UserDTO) * World;
  find_by_email : pystr -> World -> outcome (option UserDTO) * World
}.

Class PasswordHasher (World : Type) : Type := {
  hash : pystr -> World -> outcome pystr * World;
  verify : pystr -> pystr -> World -> outcome bool * World
}.

(** One entry per call of a collaborator method, with its arguments. *)
Inductive call : Type :=
| Call_save (username email password_hash : pystr)
| Call_find_by_id (user_id : Z)
| Call_find_by_email (email : pystr)
| Call_hash (password : pystr)
| Call_verify (password hashed : pystr).

Definition is_save (c : call) : bool :=
  match c with Call_save _ _ _ => true | _ => false end.
Definition is_hash (c : call) : bool :=
  match c with Call_hash _ => true | _ => false end.

(** *** The monad of the service: world, call log, exceptions *)

Record state (World : Type) : Type := {
  world : World;
  calls : list call
}.
Arguments world {World} s.
Arguments calls {World} s.

Definition M (World A : Type) : Type := state World -> outcome A * state World.

Definition ret {World A} (a : A) : M World A := fun st => (Returned a, st).

Definition raise {World A} (e : exn) : M World A := fun st => (Raised e, st).

Definition bind {World A B} (m : M World A) (k : A -> M World B) : M World B :=
  fun st =>
    match m st with
    | (Returned a, st') => k a st'
    | (Raised e, st') => (Raised e, st')
    end.

(** A pure computation that may raise. *)
Definition lift {World A} (o : outcome A) : M World A := fun st => (o, st).

(** Call a collaborator method and log the call. *)
Definition invoke {World A} (c : call) (op : World -> outcome A * World)
  : M World A :=
  fun st =>
    let '(o, w) := op (world st) in
    (o, {| world := w; calls := calls st ++ [c] |}).

(** The state after the call [c] that answered [r]. *)
Definition after {World A} (st : state World) (c : call)
    (r : outcome A * World) : state World :=
  {| world := snd r; calls := calls st ++ [c] |}.

Declare Scope svc_scope.
Delimit Scope svc_scope with svc.
Notation "'do' x <- m ; k" := (bind m (fun x => k))
  (at level 10, x name, m at level 100, k at level 200) : svc_scope.
Notation "m ;; k" := (bind m (fun _ => k))
  (at level 100, k at level 200, right associativity) : svc_scope.

(** A fresh run: empty log. *)
Definition run {World A} (m : M World A) (w : World) : outcome A * state World :=
  m {| world := w; calls := [] |}.

(** *** The patterns *)

Definition alnum : list (N * N) :=
  [(chr "a", chr "z"); (chr "A", chr "Z"); (chr "0", chr "9")].
Definition one (a : ascii) : N * N := (chr a, chr a).

(** The sets [[a-zA-Z0-9._%+-]], [[a-zA-Z0-9.-]], [[a-zA-Z]] and
    [[a-zA-Z0-9_]]. *)
Definition LOCAL_CHARS : list (N * N) :=
  alnum ++ [one "."; one "_"; one "%"; one "+"; one "-"].
Definition DOMAIN_CHARS : list (N * N) := alnum ++ [one "."; one "-"].
Definition ALPHA : list (N * N) := [(chr "a", chr "z"); (chr "A", chr "Z")].
Definition USERNAME_CHARS : list (N * N) := alnum ++ [one "_"].

(** [^[a-zA-Z0-9._%+-]+@[a-zA-Z0-9.-]+\.[a-zA-Z]{2,}$] *)
Definition EMAIL_BODY : regex :=
  Cat (Rep 1 None (Set_ LOCAL_CHARS))
 (Cat (Chr (chr "@"))
 (Cat (Rep 1 None (Set_ DOMAIN_CHARS))
 (Cat (Chr (chr "."))
      (Rep 2 None (Set_ ALPHA))))).

Definition EMAIL_REGEX (s : pystr) : bool := match_anchored EMAIL_BODY s.

(** [^[a-zA-Z0-9_]{3,30}$] *)
Definition USERNAME_BODY : regex :=
  Rep 3 (Some 30%nat) (Set_ USERNAME_CHARS).

Definition USERNAME_REGEX (s : pystr) : bool := match_anchored USERNAME_BODY s.

(** *** Validation *)

Definition _validate_username (username : pystr) : outcome unit :=
  if bool_decide (username = []) then
    Raised (InvalidUsernameError (str "Username is required"))
  else if negb (USERNAME_REGEX username) then
    Raised (InvalidUsernameError
      (str "Username must be 3-30 characters and contain only letters, numbers, and underscores"))
  else Returned tt.

Definition _validate_email (email : pystr) : outcome unit :=
  if bool_decide (email = []) then
    Raised (InvalidEmailError (str "Email is required"))
  else if negb (EMAIL_REGEX email) then
    Raised (InvalidEmailError (str "Invalid email format: " ++ email))
  else Returned tt.

Definition _validate_password `{CharDB} (password : pystr) : outcome unit :=
  if (length password <? 12)%nat then
    Raised (WeakPasswordError (str "Password must be at least 12 characters"))
  else if negb (existsb isupper password) then
    Raised (WeakPasswordError
      (str "Password must contain at least one uppercase letter"))
  else if negb (existsb islower password) then
    Raised (WeakPasswordError
      (str "Password must contain at least one lowercase letter"))
  else if negb (existsb isdigit password) then
    Raised (WeakPasswordError (str "Password must contain at least one number"))
  else Returned tt.

(** *** The service methods *)

Section Service.
Context `{CharDB} {World : Type}.
Context `{!UserRepository World} `{!PasswordHasher World}.
Local Open Scope svc_scope.

Definition create_user (username email password : pystr) : M World UserDTO :=
  lift (_validate_username username) ;;
  lift (_validate_email email) ;;
  lift (_validate_password password) ;;
  do existing_user <- invoke (Call_find_by_email email) (find_by_email email) ;
  match existing_user with
  | Some _ =>
      raise (UserAlreadyExistsError
               (str "User with email " ++ email ++ str " already exists"))
  | None =>
      do password_hash <- invoke (Call_hash password) (hash password) ;
      do user <- invoke (Call_save username email password_hash)
                        (save username email password_hash) ;
      ret user
  end.

Definition authenticate (email password : pystr) : M World (option UserDTO) :=
  do user <- invoke (Call_find_by_email email) (find_by_email email) ;
  match user with
  | None => ret None
  | Some _ => ret user
  end.

Definition get_user (user_id : Z) : M World (option UserDTO) :=
  invoke (Call_find_by_id user_id) (find_by_id user_id).
End Service.

(** *** Test doubles

    As in the unit tests, a repository and a hasher whose methods return
    the values they were configured with. *)

Record mock : Type := {
  find_by_email_return : option UserDTO;
  find_by_id_return : option UserDTO;
  save_return : UserDTO;
  hash_return : pystr
}.

Instance mock_repository : UserRepository mock := {|
  save _ _ _ w := (Returned (save_return w), w);
  find_by_id _ w := (Returned (find_by_id_return w), w);
  find_by_email _ w := (Returned (find_by_email_return w), w)
|}.

Instance mock_hasher : PasswordHasher mock := {|
  hash _ w := (Returned (hash_return w), w);
  verify _ _ w := (Returned true, w)
|}.

Definition expected_user : UserDTO := {|
  id := 1;
  username := str "johndoe";
  email := str "john@example.com";
  created_at := 1700000000
|}.

Definition fresh_mock : mock := {|
  find_by_email_return := None;
  find_by_id_return := None;
  save_return := expected_user;
  hash_return := str "hashed_password_123"
|}.

Definition taken_mock : mock := {|
  find_by_email_return := Some expected_user;
  find_by_id_return := Some expected_user;
  save_return := expected_user;
  hash_return := str "hashed_password_123"
|}.

End UserService.

(** ** The JWT demo *)

Module JwtAuth.

Local Open Scope Z_scope.
Local Open Scope string_scope.

(** Strings of this module are only compared and stored, never scanned:
    they are kept as [string].  A point in time is a number of seconds since
    the epoch, the unit of the [exp] and [iat] claims; every reading of the
    clock ([datetime.utcnow()], and the one inside [jwt.decode]) is an
    argument of the function that takes it. *)

(** *** Configuration *)

Definition SECRET_KEY : string := "your-secret-key-change-in-production".
Definition ALGORITHM : string := "HS256".
Definition ACCESS_TOKEN_EXPIRE_MINUTES : Z := 15.
Definition REFRESH_TOKEN_EXPIRE_DAYS : Z := 7.

Definition minutes (n : Z) : Z := n * 60.
Definition days (n : Z) : Z := n * 86400.

(** *** Data *)

(** The values a payload holds. *)
Inductive value : Type :=
| VNone
| VStr (s : string)
| VTime (t : Z).

#[global] Instance value_eq_dec : EqDecision value.
Proof. solve_decision. Defined.

(** [d.get(k)]: the value under [k], [None] when there is none. *)
Definition dict_get (d : gmap string value) (k : string) : value :=
  default VNone (d !! k).

Record HTTPException : Type := {
  status_code : Z;
  detail : string;
  headers : option (list (string * string))
}.

Definition HTTP_401_UNAUTHORIZED : Z := 401.

(** An exception that is not an [HTTPException]: the lookup of the
    attribute [attribute] in the module [module] failed. *)
Inductive uncaught : Type :=
| AttributeError (module attribute : string).

(** How a call ends: with a value, with an [HTTPException] (the framework
    answers with its status code), or with another exception, which nothing
    in the module catches. *)
Inductive result (A : Type) : Type :=
| Ok (a : A)
| Raise (e : HTTPException)
| Uncaught (e : uncaught).
Arguments Ok {A} a.
Arguments Raise {A} e.
Arguments Uncaught {A} e.

(** The failure kinds of the specification: the response that says the
    token has expired is [Expired], every other refusal is [Invalid]. *)
Inductive failure : Type := Expired | Invalid.

Definition failure_of (e : HTTPException) : failure :=
  if bool_decide (detail e = "Token has expired") then Expired else Invalid.

Definition fails_with {A} (r : result A) (k : failure) : Prop :=
  exists e, r = Raise e /\ status_code e = HTTP_401_UNAUTHORIZED /\ failure_of e = k.

(** *** The JWT library

    [jwt] is a third-party package.  Its signing side is an interface:
    [encode] serialises and signs a payload, [jws_decode] checks format,
    algorithm and signature of a token and gives the payload back.  The law
    is the contract of a signature scheme: what was signed with a key
    verifies under that key. *)
Inductive jwt_error : Type :=
| ExpiredSignatureError   (* [jwt.ExpiredSignatureError] *)
| DecodeError.            (* [jwt.DecodeError], [jwt.InvalidSignatureError] and
                             the other errors of the library *)

Class JwtLibrary (Token : Type) : Type := {
  encode : gmap string value -> string -> string -> Token;
  jws_decode : Token -> string -> list string -> option (gmap string value);
  jws_decode_encode payload key alg :
    jws_decode (encode payload key alg) key [alg] = Some payload
}.

(** The [exp] claim is in the past. A payload without a numeric [exp] does
    not expire. *)
Definition exp_passed (now : Z) (payload : gmap string value) : bool :=
  match payload !! "exp" with
  | Some (VTime exp) => (exp <=? now)%Z
  | _ => false
  end.

(** Modelled from the spec: [jwt.decode] is a function of the JWT library,
    which is not in the repository.  Sections 4.2 and 6: verification
    checks the signature first and the expiry next, and fails distinctly for
    an invalid signature or format and for an expired token. [now] is the
    library's reading of the clock. *)
Definition decode `{JwtLibrary Token} (now : Z) (token : Token) (key : string)
    (algorithms : list string) (verify_exp : bool)
  : jwt_error + gmap string value :=
  match jws_decode token key algorithms with
  | None => inl DecodeError
  | Some payload =>
      if verify_exp && exp_passed now payload
      then inl ExpiredSignatureError
      else inr payload
  end.

(** A library for running examples: a token is the payload next to the key
    and the algorithm it was signed with. *)
Record plain_token : Type := {
  claims : gmap string value;
  signed_with : string;
  signed_alg : string
}.

#[refine] Instance plain_jwt : JwtLibrary plain_token := {|
  encode payload key alg :=
    {| claims := payload; signed_with := key; signed_alg := alg |};
  jws_decode token key algorithms :=
    if bool_decide (signed_with token = key)
       && bool_decide (signed_alg token ∈ algorithms)
    then Some (claims token) else None
|}.
Proof.
  intros payload key alg; simpl.
  rewrite !bool_decide_eq_true_2; [reflexivity | apply list_elem_of_singleton; reflexivity | reflexivity].
Defined.

Record TokenResponse (Token : Type) : Type := {
  access_token : Token;
  refresh_token_field : Token;
  token_type : string;
  expires_in : Z
}.
Arguments access_token {Token} t.
Arguments refresh_token_field {Token} t.
Arguments token_type {Token} t.
Arguments expires_in {Token} t.

(** *** TokenManager, the dependency and the refresh route *)

Section Tokens.
Context `{JwtLibrary Token}.

(** [clock1] is the reading of the clock for [expire], [clock2] the one
    for [iat]. *)
Definition create_access_token (clock1 clock2 : Z) (user_id : value) : Token :=
  let expire := clock1 + minutes ACCESS_TOKEN_EXPIRE_MINUTES in
  let payload : gmap string value :=
    <["sub" := user_id]> (<["exp" := VTime expire]>
      (<["iat" := VTime clock2]> (<["type" := VStr "access"]> ∅))) in
  encode payload SECRET_KEY ALGORITHM.

Definition create_refresh_token (clock1 clock2 : Z) (user_id : value) : Token :=
  let expire := clock1 + days REFRESH_TOKEN_EXPIRE_DAYS in
  let payload : gmap string value :=
    <["sub" := user_id]> (<["exp" := VTime expire]>
      (<["iat" := VTime clock2]> (<["type" := VStr "refresh"]> ∅))) in
  encode payload SECRET_KEY ALGORITHM.

(** The handlers are tried in order.  An error that is not an
    [ExpiredSignatureError] reaches [except jwt.JWTError]; the module [jwt]
    imported by [import jwt] has no attribute [JWTError], so naming the
    class of that handler raises [AttributeError], and the body of the
    handler (the 401 with "Could not validate credentials") is never run. *)
Definition decode_token (now : Z) (token : Token) : result (gmap string value) :=
  match decode now token SECRET_KEY [ALGORITHM] true with
  | inr payload => Ok payload
  | inl ExpiredSignatureError =>
      Raise {| status_code := HTTP_401_UNAUTHORIZED;
               detail := "Token has expired";
               headers := Some [("WWW-Authenticate", "Bearer")] |}
  | inl DecodeError => Uncaught (AttributeError "jwt" "JWTError")
  end.

(** [token] is [credentials.credentials], the bearer token of the request. *)
Definition get_current_user (now : Z) (token : Token) : result value :=
  match decode_token now token with
  | Raise e => Raise e
  | Uncaught e => Uncaught e
  | Ok payload =>
      if bool_decide (dict_get payload "type" ≠ VStr "access") then
        Raise {| status_code := HTTP_401_UNAUTHORIZED;
                 detail := "Invalid token type";
                 headers := None |}
      else
        let user_id := dict_get payload "sub" in
        if bool_decide (user_id = VNone) then
          Raise {| status_code := HTTP_401_UNAUTHORIZED;
                   detail := "Could not validate credentials";
                   headers := None |}
        else Ok user_id
  end.

(** [now] is the clock of the verification, [clock1] and [clock2] the two
    readings of [create_access_token]. *)
Definition refresh_token (now clock1 clock2 : Z) (token : Token)
  : result (TokenResponse Token) :=
  match decode_token now token with
  | Raise e => Raise e
  | Uncaught e => Uncaught e
  | Ok payload =>
      if bool_decide (dict_get payload "type" ≠ VStr "refresh") then
        Raise {| status_code := HTTP_401_UNAUTHORIZED;
                 detail := "Invalid token type";
                 headers := None |}
      else
        let user_id := dict_get payload "sub" in
        let access_token := create_access_token clock1 clock2 user_id in
        Ok {| access_token := access_token;
              refresh_token_field := token;
              token_type := "bearer";
              expires_in := ACCESS_TOKEN_EXPIRE_MINUTES * 60 |}
  end.

End Tokens.

End JwtAuth.

(** ** Vocabulary of the properties *)

Module Shapes.
Import Regex UserService.

(** [s] has a character outside the set [rs]. *)
Definition has_outside (rs : list (N * N)) (s : pystr) : bool :=
  existsb (fun c => negb (in_set rs c)) s.

(** ASCII whitespace: tab, newline, vertical tab, form feed, carriage
    return, space. *)
Definition is_whitespace (c : N) : bool :=
  ((9 <=? c) && (c <=? 13)) || (c =? 32).

Definition has_whitespace (s : pystr) : bool := existsb is_whitespace s.

(** A username as the rules of [_validate_username] describe it. *)
Definition username_word (t : pystr) : Prop :=
  (3 <= length t <= 30)%nat /\ forallb (in_set USERNAME_CHARS) t = true.

(** [local@domain.tld]: a local part, a domain and a top-level label of at
    least two letters. *)
Definition email_shape (s : pystr) : Prop :=
  exists l d t,
    s = l ++ chr "@" :: d ++ chr "." :: t
    /\ l <> [] /\ forallb (in_set LOCAL_CHARS) l = true
    /\ d <> [] /\ forallb (in_set DOMAIN_CHARS) d = true
    /\ (2 <= length t)%nat /\ forallb (in_set ALPHA) t = true.

(** A domain that ends in a dot and a top-level label of at least two
    letters. *)
Definition dotted_domain (d : pystr) : Prop :=
  exists x t, d = x ++ chr "." :: t
    /\ (2 <= length t)%nat /\ forallb (in_set ALPHA) t = true.

(** The emails the description of [_validate_email] excludes: empty, with
    whitespace, without an [@] after a local part, without a dotted
    domain. *)
Definition malformed_email (e : pystr) : Prop :=
  e = []
  \/ has_whitespace e = true
  \/ (forall l d, e = l ++ chr "@" :: d -> l = [])
  \/ (forall l d, e = l ++ chr "@" :: d -> ~ dotted_domain d).

(** The usernames the rules of [_validate_username] exclude. *)
Definition malformed_username (u : pystr) : Prop :=
  (length u < 3)%nat \/ (30 < length u)%nat
  \/ has_outside USERNAME_CHARS u = true.

(** A password as the rules of [_validate_password] describe it. *)
Definition weak `{CharDB} (p : pystr) : Prop :=
  (length p < 12)%nat
  \/ existsb isupper p = false
  \/ existsb islower p = false
  \/ existsb isdigit p = false.

End Shapes.

(** ** Further test doubles *)

Module Doubles.
Import UserService.

(** [TestPasswordHasher] of the integration tests: [hash] is
    [f"hashed_{password}"], [verify] compares [self.hash(password)] with
    the stored value.  It keeps no state and never raises. *)
Definition TestPasswordHasher (World : Type) : PasswordHasher World := {|
  hash password w := (Returned (str "hashed_" ++ password), w);
  verify password hashed w :=
    (Returned (bool_decide (str "hashed_" ++ password = hashed)), w)
|}.

(** Doubles with a side effect, as [Mock(side_effect=...)]: every method
    ends the way the script says, which may be an exception. *)
Record script : Type := {
  on_find_by_email : outcome (option UserDTO);
  on_find_by_id : outcome (option UserDTO);
  on_save : outcome UserDTO;
  on_hash : outcome pystr
}.

Definition scripted_repository : UserRepository script := {|
  save _ _ _ w := (on_save w, w);
  find_by_id _ w := (on_find_by_id w, w);
  find_by_email _ w := (on_find_by_email w, w)
|}.

Definition scripted_hasher : PasswordHasher script := {|
  hash _ w := (on_hash w, w);
  verify _ _ w := (Returned true, w)
|}.

Definition database_down : exn := OtherError (str "OperationalError").

(** The lookup fails. *)
Definition lookup_fails : script := {|
  on_find_by_email := Raised database_down;
  on_find_by_id := Raised database_down;
  on_save := Returned expected_user;
  on_hash := Returned (str "hashed_password_123")
|}.

(** The lookup finds nothing and the hasher fails. *)
Definition hasher_fails : script := {|
  on_find_by_email := Returned None;
  on_find_by_id := Returned None;
  on_save := Returned expected_user;
  on_hash := Raised (OtherError (str "ValueError"))
|}.

End Doubles.

(** ** The routes of the JWT demo *)

Module JwtRoutes.
Import JwtAuth.

Local Open Scope Z_scope.
Local Open Scope string_scope.

Section Routes.
Context `{JwtLibrary Token}.

(** The routes that depend on [get_current_user]: the framework resolves
    the dependency first, and its exception is the answer of the route. *)
Definition logout (now : Z) (token : Token) : result (gmap string value) :=
  match get_current_user now token with
  | Raise e => Raise e
  | Uncaught e => Uncaught e
  | Ok user_id => Ok {[ "message" := VStr "Successfully logged out" ]}
  end.

Definition protected_route (now : Z) (token : Token)
  : result (gmap string value) :=
  match get_current_user now token with
  | Raise e => Raise e
  | Uncaught e => Uncaught e
  | Ok user_id =>
      Ok (<["message" := VStr "This is a protected route"]>
            (<["user_id" := user_id]> ∅))
  end.

Definition admin_route (now : Z) (token : Token)
  : result (gmap string value) :=
  match get_current_user now token with
  | Raise e => Raise e
  | Uncaught e => Uncaught e
  | Ok user_id =>
      Ok (<["message" := VStr "Admin access granted"]>
            (<["user_id" := user_id]> ∅))
  end.

End Routes.

End JwtRoutes.

(** ** Further vocabulary *)

Module MoreShapes.

(** The character [@]. *)
Definition AT : N := chr "@".

End MoreShapes.

(** * Proofs *)

(** ** The matcher decides [Matches] *)

Module RegexFacts.
Import Regex.

Lemma more_fits lo hi : fits (S lo) hi = true -> more hi = true.
Proof. destruct hi as [[|n]|]; simpl; intros; try reflexivity; discriminate. Qed.

Lemma fits_dec lo hi : fits (S lo) hi = true -> fits lo (dec hi) = true.
Proof.
  destruct hi as [[|n]|]; simpl; intros E; try reflexivity; [discriminate|].
  destruct lo; [reflexivity | exact E].
Qed.

Lemma fits_step lo hi :
  more hi = true -> fits lo (dec hi) = true -> fits (S lo) hi = true.
Proof.
  destruct hi as [[|n]|]; simpl; intros Hm E; try reflexivity; [discriminate|].
  apply Nat.leb_le in E. apply Nat.leb_le. lia.
Qed.

Lemma fits_one hi : more hi = true -> fits 1 hi = true.
Proof. destruct hi as [[|n]|]; simpl; intros; try reflexivity; discriminate. Qed.

Lemma rep_nil lo hi r :
  Matches r [] -> fits lo hi = true -> Matches (Rep lo hi r) [].
Proof.
  intros Hr. revert hi. induction lo as [|lo IH]; intros hi Hf.
  - constructor.
  - change (@nil N) with (@nil N ++ @nil N).
    apply M_rep_step; [eapply more_fits; eassumption | assumption |].
    simpl. apply IH. apply fits_dec. assumption.
Qed.

Lemma nullable_sound r : nullable r = true -> Matches r [].
Proof.
  induction r as [| | c | rs | r1 IH1 r2 IH2 | r1 IH1 r2 IH2 | lo hi r IH];
    simpl; intros E; try discriminate.
  - constructor.
  - apply andb_true_iff in E as [E1 E2].
    change (@nil N) with (@nil N ++ @nil N). constructor; auto.
  - apply orb_true_iff in E as [E|E]; [apply M_alt_l | apply M_alt_r]; auto.
  - apply orb_true_iff in E as [E|E].
    + apply Nat.eqb_eq in E. subst lo. constructor.
    + apply andb_true_iff in E as [E1 E2]. apply rep_nil; auto.
Qed.

Lemma nullable_complete r s : Matches r s -> s = [] -> nullable r = true.
Proof.
  induction 1 as [| c | rs c Hc | r1 r2 s1 s2 H1 IH1 H2 IH2
                  | r1 r2 s H1 IH1 | r1 r2 s H2 IH2 | hi r
                  | lo hi r s1 s2 Hm H1 IH1 H2 IH2];
    simpl; intros E; try discriminate; try reflexivity.
  - apply app_eq_nil in E as [-> ->]. rewrite IH1, IH2; reflexivity.
  - rewrite IH1; auto.
  - rewrite IH2; auto using orb_true_r.
  - apply app_eq_nil in E as [-> ->].
    specialize (IH1 eq_refl). specialize (IH2 eq_refl).
    rewrite IH1. simpl in IH2 |- *.
    destruct lo as [|lo]; [reflexivity|]. simpl in *.
    apply orb_true_iff in IH2 as [E|E].
    + apply Nat.eqb_eq in E. subst lo. apply fits_one. assumption.
    + apply andb_true_iff in E as [_ E]. apply fits_step; assumption.
Qed.

Lemma nullable_spec r : nullable r = true <-> Matches r [].
Proof. split; [apply nullable_sound | intros H; eapply nullable_complete; eauto]. Qed.

Lemma deriv_sound c r : forall t, Matches (deriv c r) t -> Matches r (c :: t).
Proof.
  induction r as [| | d | rs | r1 IH1 r2 IH2 | r1 IH1 r2 IH2 | lo hi r IH];
    simpl; intros t H.
  - inversion H.
  - inversion H.
  - destruct (N.eqb_spec c d) as [->|]; inversion H; subst. constructor.
  - destruct (in_set rs c) eqn:E; inversion H; subst. constructor. assumption.
  - destruct (nullable r1) eqn:E.
    + inversion H as [| | | | ? ? ? H' | ? ? ? H' | |]; subst.
      * inversion H' as [| | | ? ? s1 s2 Ha Hb | | | |]; subst.
        change (c :: s1 ++ s2) with ((c :: s1) ++ s2). constructor; auto.
      * change (c :: t) with ([] ++ c :: t).
        constructor; [apply nullable_sound; assumption | auto].
    + inversion H as [| | | ? ? s1 s2 Ha Hb | | | |]; subst.
      change (c :: s1 ++ s2) with ((c :: s1) ++ s2). constructor; auto.
  - inversion H; subst; [apply M_alt_l | apply M_alt_r]; auto.
  - destruct (more hi) eqn:E; [|inversion H].
    inversion H as [| | | ? ? s1 s2 Ha Hb | | | |]; subst.
    change (c :: s1 ++ s2) with ((c :: s1) ++ s2).
    apply M_rep_step; auto.
Qed.

Lemma deriv_complete c r s :
  Matches r s -> forall t, s = c :: t -> Matches (deriv c r) t.
Proof.
  induction 1 as [| d | rs d Hd | r1 r2 s1 s2 H1 IH1 H2 IH2
                  | r1 r2 s H1 IH1 | r1 r2 s H2 IH2 | hi r
                  | lo hi r s1 s2 Hm H1 IH1 H2 IH2];
    simpl; intros t E; try discriminate.
  - injection E as -> <-. rewrite N.eqb_refl. constructor.
  - injection E as -> <-. rewrite Hd. constructor.
  - destruct s1 as [|c1 s1]; simpl in E.
    + rewrite (nullable_complete _ _ H1 eq_refl).
      apply M_alt_r. auto.
    + injection E as -> <-.
      destruct (nullable r1); [apply M_alt_l|]; constructor; auto.
  - apply M_alt_l; auto.
  - apply M_alt_r; auto.
  - rewrite Hm. destruct s1 as [|c1 s1]; simpl in E.
    + specialize (IH2 _ E). simpl in IH2.
      destruct (more (dec hi)) eqn:Hm'; [|inversion IH2].
      inversion IH2 as [| | | ? ? a b Ha Hb | | | |]; subst.
      constructor; [assumption|].
      change b with ([] ++ b). apply M_rep_step; assumption.
    + injection E as -> <-. constructor; auto.
Qed.

Lemma deriv_spec c r t : Matches (deriv c r) t <-> Matches r (c :: t).
Proof. split; [apply deriv_sound | intros H; eapply deriv_complete; eauto]. Qed.

(** The matcher accepts exactly the words of the pattern. *)
Lemma matches_spec s : forall r, matches r s = true <-> Matches r s.
Proof.
  induction s as [|c t IH]; intros r; simpl.
  - apply nullable_spec.
  - rewrite IH. apply deriv_spec.
Qed.

(** Repetition of a character set: a count and a test of every character. *)
Lemma rep_set_inv rs r s :
  Matches r s -> forall lo hi, r = Rep lo hi (Set_ rs) ->
  (lo <= length s)%nat /\ fits (length s) hi = true
  /\ forallb (in_set rs) s = true.
Proof.
  induction 1 as [| d | rs' d Hd | r1 r2 s1 s2 H1 IH1 H2 IH2
                  | r1 r2 s H1 IH1 | r1 r2 s H2 IH2 | hi r
                  | lo hi r s1 s2 Hm H1 IH1 H2 IH2];
    intros lo' hi' E; try discriminate.
  - injection E as <- <- ->. simpl.
    split; [lia|]. split; [destruct hi; reflexivity | reflexivity].
  - injection E as <- <- ->.
    destruct (IH2 _ _ eq_refl) as (Hlo & Hhi & Hall).
    inversion H1; subst. simpl.
    split; [lia|]. split; [apply fits_step; assumption|].
    apply andb_true_iff. split; assumption.
Qed.

Lemma rep_set_intro rs s : forall lo hi,
  (lo <= length s)%nat -> fits (length s) hi = true ->
  forallb (in_set rs) s = true -> Matches (Rep lo hi (Set_ rs)) s.
Proof.
  induction s as [|c t IH]; simpl; intros lo hi Hlo Hhi Hall.
  - assert (lo = 0)%nat as -> by lia. constructor.
  - apply andb_true_iff in Hall as [Hc Hall].
    change (c :: t) with ([c] ++ t). apply M_rep_step.
    + eapply more_fits; eassumption.
    + constructor; assumption.
    + apply IH; [lia | apply fits_dec; assumption | assumption].
Qed.

Lemma rep_set_spec rs lo hi s :
  Matches (Rep lo hi (Set_ rs)) s <->
  (lo <= length s)%nat /\ fits (length s) hi = true
  /\ forallb (in_set rs) s = true.
Proof.
  split.
  - intros H. eapply rep_set_inv; eauto.
  - intros (H1 & H2 & H3). apply rep_set_intro; assumption.
Qed.

Lemma chomp_spec s t : chomp s = Some t <-> s = t ++ [NEWLINE].
Proof.
  unfold chomp. split.
  - destruct (reverse s) as [|c l] eqn:E; [discriminate|].
    destruct (N.eqb_spec c NEWLINE) as [->|]; [|discriminate].
    intros [= <-]. rewrite <- (reverse_involutive s), E.
    apply reverse_cons.
  - intros ->. rewrite reverse_snoc, N.eqb_refl, reverse_involutive.
    reflexivity.
Qed.

Lemma chomp_none s : last s <> Some NEWLINE -> chomp s = None.
Proof.
  intros H. destruct (chomp s) as [t|] eqn:E; [|reflexivity].
  apply chomp_spec in E. subst s. rewrite last_snoc in H. congruence.
Qed.

(** What ["^" r "$"] accepts: the words of [r], and the words of [r]
    followed by one newline. *)
Lemma match_anchored_spec r s :
  match_anchored r s = true <->
  Matches r s \/ exists t, s = t ++ [NEWLINE] /\ Matches r t.
Proof.
  unfold match_anchored. rewrite orb_true_iff, matches_spec. split.
  - intros [H|H]; [left; assumption|]. right.
    destruct (chomp s) as [t|] eqn:E; [|discriminate].
    exists t. split; [apply chomp_spec; assumption | apply matches_spec; assumption].
  - intros [H|(t & -> & H)]; [left; assumption|]. right.
    rewrite (proj2 (chomp_spec _ _) eq_refl). apply matches_spec. assumption.
Qed.

Lemma match_anchored_no_newline r s :
  last s <> Some NEWLINE -> match_anchored r s = matches r s.
Proof.
  intros H. unfold match_anchored. rewrite chomp_none by assumption.
  apply orb_false_r.
Qed.

End RegexFacts.

(** ** The user service *)

Module UserServiceFacts.
Import Regex RegexFacts UserService Shapes.

(** *** What the two patterns accept *)

Lemma USERNAME_REGEX_spec s :
  USERNAME_REGEX s = true <->
  username_word s \/ exists t, s = t ++ [NEWLINE] /\ username_word t.
Proof.
  unfold USERNAME_REGEX, USERNAME_BODY, username_word.
  rewrite match_anchored_spec, rep_set_spec.
  assert (forall t : pystr,
    (3 <= length t)%nat /\ fits (length t) (Some 30%nat) = true
      /\ forallb (in_set USERNAME_CHARS) t = true <->
    (3 <= length t <= 30)%nat /\ forallb (in_set USERNAME_CHARS) t = true) as E.
  { intros t. simpl. rewrite Nat.leb_le. tauto. }
  rewrite E. split.
  - intros [H|(t & -> & H)]; [left; assumption|].
    right. exists t. split; [reflexivity|]. apply E, rep_set_spec. assumption.
  - intros [H|(t & -> & H)]; [left; assumption|].
    right. exists t. split; [reflexivity|]. apply rep_set_spec, E. assumption.
Qed.

Lemma Matches_chr c s : Matches (Chr c) s <-> s = [c].
Proof. split; [inversion 1; reflexivity | intros ->; constructor]. Qed.

Lemma Matches_cat r1 r2 s :
  Matches (Cat r1 r2) s <->
  exists s1 s2, s = s1 ++ s2 /\ Matches r1 s1 /\ Matches r2 s2.
Proof.
  split.
  - inversion 1; subst. eauto.
  - intros (s1 & s2 & -> & H1 & H2). constructor; assumption.
Qed.

Lemma nonempty_length {A} (l : list A) : (1 <= length l)%nat <-> l <> [].
Proof. destruct l; simpl; split; intros; try congruence; lia. Qed.

Lemma EMAIL_BODY_spec s : Matches EMAIL_BODY s <-> email_shape s.
Proof.
  unfold EMAIL_BODY, email_shape. split.
  - intros H.
    apply Matches_cat in H as (l & s1 & -> & Hl & H).
    apply Matches_cat in H as (a & s2 & -> & Ha & H).
    apply Matches_cat in H as (d & s3 & -> & Hd & H).
    apply Matches_cat in H as (b & t & -> & Hb & Ht).
    apply Matches_chr in Ha as ->. apply Matches_chr in Hb as ->.
    apply rep_set_spec in Hl as (Hl1 & _ & Hl2).
    apply rep_set_spec in Hd as (Hd1 & _ & Hd2).
    apply rep_set_spec in Ht as (Ht1 & _ & Ht2).
    exists l, d, t. rewrite <- !nonempty_length. auto 10.
  - intros (l & d & t & -> & Hl1 & Hl2 & Hd1 & Hd2 & Ht1 & Ht2).
    apply nonempty_length in Hl1, Hd1.
    apply M_cat; [apply rep_set_spec; auto|].
    apply (M_cat _ _ [_]); [constructor|].
    apply M_cat; [apply rep_set_spec; auto|].
    apply (M_cat _ _ [_]); [constructor|].
    apply rep_set_spec; auto.
Qed.

Lemma EMAIL_REGEX_spec s :
  EMAIL_REGEX s = true <->
  email_shape s \/ exists t, s = t ++ [NEWLINE] /\ email_shape t.
Proof.
  unfold EMAIL_REGEX. rewrite match_anchored_spec, EMAIL_BODY_spec.
  split; (intros [H|(t & -> & H)]; [left; assumption|]);
    right; exists t; (split; [reflexivity|]); apply EMAIL_BODY_spec; assumption.
Qed.

(** *** The validators *)

Lemma validate_username_returns u :
  _validate_username u = Returned tt <-> USERNAME_REGEX u = true.
Proof.
  unfold _validate_username. split.
  - case_bool_decide; [discriminate|].
    destruct (USERNAME_REGEX u); [reflexivity | discriminate].
  - intros E. case_bool_decide as Hu.
    + subst u. discriminate E.
    + rewrite E. reflexivity.
Qed.

Lemma validate_username_raises u :
  USERNAME_REGEX u = false ->
  exists msg, _validate_username u = Raised (InvalidUsernameError msg).
Proof.
  intros E. unfold _validate_username. case_bool_decide; [eauto|].
  rewrite E. simpl. eauto.
Qed.

Lemma validate_username_kind u e :
  _validate_username u = Raised e -> failure_of e = InvalidUsername.
Proof.
  unfold _validate_username. case_bool_decide; [intros [= <-]; reflexivity|].
  destruct (USERNAME_REGEX u); simpl; [discriminate | intros [= <-]; reflexivity].
Qed.

Lemma validate_email_returns e :
  _validate_email e = Returned tt <-> EMAIL_REGEX e = true.
Proof.
  unfold _validate_email. split.
  - case_bool_decide; [discriminate|].
    destruct (EMAIL_REGEX e); [reflexivity | discriminate].
  - intros E. case_bool_decide as He.
    + subst e. discriminate E.
    + rewrite E. reflexivity.
Qed.

Lemma validate_email_raises e :
  EMAIL_REGEX e = false ->
  exists msg, _validate_email e = Raised (InvalidEmailError msg).
Proof.
  intros E. unfold _validate_email. case_bool_decide; [eauto|].
  rewrite E. simpl. eauto.
Qed.

Lemma validate_email_kind e x :
  _validate_email e = Raised x -> failure_of x = InvalidEmail.
Proof.
  unfold _validate_email. case_bool_decide; [intros [= <-]; reflexivity|].
  destruct (EMAIL_REGEX e); simpl; [discriminate | intros [= <-]; reflexivity].
Qed.

Section Password.
Context `{CharDB}.

Lemma validate_password_returns p :
  _validate_password p = Returned tt <-> ~ weak p.
Proof.
  unfold _validate_password, weak. split.
  - destruct (Nat.ltb_spec (length p) 12); [discriminate|].
    destruct (existsb isupper p); [|discriminate].
    destruct (existsb islower p); [|discriminate].
    destruct (existsb isdigit p); [|discriminate].
    intros _ [?|[?|[?|?]]]; [lia | discriminate..].
  - intros Hw.
    destruct (Nat.ltb_spec (length p) 12); [exfalso; auto|].
    destruct (existsb isupper p); [|exfalso; auto].
    destruct (existsb islower p); [|exfalso; auto].
    destruct (existsb isdigit p); [|exfalso; auto 6].
    reflexivity.
Qed.

Lemma validate_password_raises p :
  weak p -> exists msg, _validate_password p = Raised (WeakPasswordError msg).
Proof.
  unfold _validate_password, weak. intros Hw.
  destruct (Nat.ltb_spec (length p) 12); [eauto|].
  destruct (existsb isupper p); [|simpl; eauto].
  destruct (existsb islower p); [|simpl; eauto].
  destruct (existsb isdigit p); [|simpl; eauto].
  exfalso. destruct Hw as [?|[?|[?|?]]]; [lia | discriminate..].
Qed.

Lemma validate_password_kind p x :
  _validate_password p = Raised x -> failure_of x = WeakPassword.
Proof.
  unfold _validate_password.
  destruct (length p <? 12)%nat; [intros [= <-]; reflexivity|].
  destruct (existsb isupper p); simpl; [|intros [= <-]; reflexivity].
  destruct (existsb islower p); simpl; [|intros [= <-]; reflexivity].
  destruct (existsb isdigit p); simpl; [discriminate | intros [= <-]; reflexivity].
Qed.

End Password.

(** *** The cases of the unit tests *)

Example test_rejects_invalid_username :
  map (fun u => failure_of_outcome (_validate_username u))
      [str "ab"; repeat (chr "a") 31; str "john-doe"; str "john doe"; []]
  = repeat (Some InvalidUsername) 5.
Proof. vm_compute. reflexivity. Qed.

Example test_rejects_invalid_email :
  map (fun e => failure_of_outcome (_validate_email e))
      [str "notanemail"; str "missing@domain"; str "@nodomain.com";
       str "spaces in@email.com"; []]
  = repeat (Some InvalidEmail) 5.
Proof. vm_compute. reflexivity. Qed.

Example test_rejects_weak_password :
  map _validate_password
      [str "short"; str "nouppercase123"; str "NOLOWERCASE123";
       str "NoNumbersHere"]
  = map (fun m => Raised (WeakPasswordError (str m)))
      ["Password must be at least 12 characters";
       "Password must contain at least one uppercase letter";
       "Password must contain at least one lowercase letter";
       "Password must contain at least one number"]%string.
Proof. vm_compute. reflexivity. Qed.

Example test_accepts_valid_input :
  _validate_username (str "johndoe") = Returned tt
  /\ _validate_email (str "john@example.com") = Returned tt
  /\ _validate_password (str "SecurePass123") = Returned tt.
Proof. vm_compute. auto. Qed.

(** *** [create_user], step by step *)

Section Service.
Context `{CharDB} {World : Type}.
Context `{!UserRepository World} `{!PasswordHasher World}.

Lemma create_user_eq u e p st :
  create_user u e p st =
  match _validate_username u with
  | Raised x => (Raised x, st)
  | Returned _ =>
  match _validate_email e with
  | Raised x => (Raised x, st)
  | Returned _ =>
  match _validate_password p with
  | Raised x => (Raised x, st)
  | Returned _ =>
      let r1 := find_by_email e (world st) in
      let st1 := after st (Call_find_by_email e) r1 in
      match fst r1 with
      | Raised x => (Raised x, st1)
      | Returned (Some _) =>
          (Raised (UserAlreadyExistsError
                     (str "User with email " ++ e ++ str " already exists")), st1)
      | Returned None =>
          let r2 := hash p (world st1) in
          let st2 := after st1 (Call_hash p) r2 in
          match fst r2 with
          | Raised x => (Raised x, st2)
          | Returned h =>
              let r3 := save u e h (world st2) in
              (fst r3, after st2 (Call_save u e h) r3)
          end
      end
  end end end.
Proof.
  unfold create_user, bind, lift, invoke, ret, raise, after.
  destruct (_validate_username u); [|reflexivity].
  destruct (_validate_email e); [|reflexivity].
  destruct (_validate_password p); [|reflexivity].
  destruct (find_by_email e (world st)) as [[[?|]|] w1]; simpl; try reflexivity.
  destruct (hash p w1) as [[h|] w2]; simpl; try reflexivity.
  destruct (save u e h w2) as [[?|] w3]; reflexivity.
Qed.

(** The password of the unit tests passes, whatever the character table
    says outside ASCII. *)
Lemma SecurePass123_passes :
  _validate_password (str "SecurePass123") = Returned tt.
Proof.
  apply validate_password_returns. unfold weak.
  replace (str "SecurePass123")
    with [83; 101; 99; 117; 114; 101; 80; 97; 115; 115; 49; 50; 51]
    by reflexivity.
  assert (isupper 83 = true) as U by (rewrite isupper_ascii by lia; reflexivity).
  assert (islower 101 = true) as L by (rewrite islower_ascii by lia; reflexivity).
  assert (isdigit 49 = true) as D by (rewrite isdigit_ascii by lia; reflexivity).
  intros [Hl|[E|[E|E]]].
  - simpl in Hl. lia.
  - simpl in E. rewrite U in E. discriminate.
  - simpl in E. rewrite L, orb_true_r in E. discriminate.
  - simpl in E. rewrite D, !orb_true_r in E. discriminate.
Qed.

(** C1. For a username, an email and a password that pass validation, when
    [find_by_email] returns absent, [create_user] calls [hash] exactly once,
    with the plaintext password, then calls [save] exactly once, with the
    username, the email and the value [hash] returned, and what [save]
    returns is what [create_user] returns, as it is. *)
Theorem create_user_success u e p w0 w1 w2 h :
  _validate_username u = Returned tt ->
  _validate_email e = Returned tt ->
  _validate_password p = Returned tt ->
  find_by_email e w0 = (Returned None, w1) ->
  hash p w1 = (Returned h, w2) ->
  let r := run (create_user u e p) w0 in
  fst r = fst (save u e h w2)
  /\ world (snd r) = snd (save u e h w2)
  /\ calls (snd r) = [Call_find_by_email e; Call_hash p; Call_save u e h]
  /\ List.filter is_hash (calls (snd r)) = [Call_hash p]
  /\ List.filter is_save (calls (snd r)) = [Call_save u e h].
Proof.
  intros Hu He Hp Hf Hh r. subst r. unfold run.
  rewrite create_user_eq, Hu, He, Hp. cbn [world calls].
  rewrite Hf. cbn [fst snd after world calls].
  rewrite Hh. cbn. auto.
Qed.

(** C7. For validated input, when [find_by_email] returns a record,
    [create_user] fails with [AlreadyExists]; the lookup is the only call
    made (no [save], no [hash]) and the world is as the lookup left it. *)
Theorem create_user_existing u e p w0 w1 rec :
  _validate_username u = Returned tt ->
  _validate_email e = Returned tt ->
  _validate_password p = Returned tt ->
  find_by_email e w0 = (Returned (Some rec), w1) ->
  let r := run (create_user u e p) w0 in
  fails_with (fst r) AlreadyExists
  /\ world (snd r) = w1
  /\ calls (snd r) = [Call_find_by_email e]
  /\ List.filter is_save (calls (snd r)) = []
  /\ List.filter is_hash (calls (snd r)) = [].
Proof.
  intros Hu He Hp Hf r. subst r. unfold run.
  rewrite create_user_eq, Hu, He, Hp. cbn [world calls].
  rewrite Hf. cbn. repeat split. eexists. split; reflexivity.
Qed.

(** C6. [create_user] validates the username, then the email, then the
    password; the first failure is the one raised, and then no collaborator
    has been called: log and world are untouched.  A call in the log means
    that the three validations passed. *)
Theorem validation_order u e p st :
  let r := create_user u e p st in
  (forall x, _validate_username u = Raised x ->
     r = (Raised x, st) /\ failure_of x = InvalidUsername)
  /\ (_validate_username u = Returned tt ->
      forall x, _validate_email e = Raised x ->
      r = (Raised x, st) /\ failure_of x = InvalidEmail)
  /\ (_validate_username u = Returned tt ->
      _validate_email e = Returned tt ->
      forall x, _validate_password p = Raised x ->
      r = (Raised x, st) /\ failure_of x = WeakPassword)
  /\ (calls (snd r) <> calls st ->
      _validate_username u = Returned tt
      /\ _validate_email e = Returned tt
      /\ _validate_password p = Returned tt).
Proof.
  intros r. subst r. rewrite create_user_eq.
  split; [|split; [|split]].
  - intros x Hu. rewrite Hu.
    split; [reflexivity | eapply validate_username_kind; eassumption].
  - intros Hu x He. rewrite Hu, He.
    split; [reflexivity | eapply validate_email_kind; eassumption].
  - intros Hu He x Hp. rewrite Hu, He, Hp.
    split; [reflexivity | eapply validate_password_kind; eassumption].
  - intros Hc.
    destruct (_validate_username u) as [[]|]; [|simpl in Hc; congruence].
    destruct (_validate_email e) as [[]|]; [|simpl in Hc; congruence].
    destruct (_validate_password p) as [[]|]; [|simpl in Hc; congruence].
    auto.
Qed.

(** C8. [get_user] and [authenticate] return what the lookup of the
    repository returns, absent or the record as it is, after that one call;
    [authenticate] does not look at the password. *)
Theorem lookups_pass_through user_id e p st :
  get_user user_id st
    = (fst (find_by_id user_id (world st)),
       after st (Call_find_by_id user_id) (find_by_id user_id (world st)))
  /\ authenticate e p st
    = (fst (find_by_email e (world st)),
       after st (Call_find_by_email e) (find_by_email e (world st)))
  /\ (forall p', authenticate e p' st = authenticate e p st).
Proof.
  assert (forall q, authenticate e q st
    = (fst (find_by_email e (world st)),
       after st (Call_find_by_email e) (find_by_email e (world st)))) as E.
  { intros q. unfold authenticate, bind, invoke, ret, after.
    destruct (find_by_email e (world st)) as [[[?|]|] w]; reflexivity. }
  split; [|split].
  - unfold get_user, invoke, after.
    destruct (find_by_id user_id (world st)); reflexivity.
  - apply E.
  - intros p'. rewrite !E. reflexivity.
Qed.

(** C4. A password shorter than 12 characters, or without an uppercase
    letter, or without a lowercase letter, or without a digit makes
    [create_user], called with a valid username and email, fail with
    [WeakPassword]; the password [SecurePass123] passes. *)
Theorem weak_password_rejected :
  (forall u e p st,
     _validate_username u = Returned tt ->
     _validate_email e = Returned tt ->
     weak p ->
     fails_with (fst (create_user u e p st)) WeakPassword
     /\ snd (create_user u e p st) = st)
  /\ _validate_password (str "SecurePass123") = Returned tt.
Proof.
  split.
  - intros u e p st Hu He Hw.
    destruct (validate_password_raises p Hw) as [msg Hp].
    rewrite create_user_eq, Hu, He, Hp. simpl.
    split; [|reflexivity]. eexists. split; reflexivity.
  - apply SecurePass123_passes.
Qed.

End Service.

Lemma create_user_success_witness :
  let r := run (create_user (str "johndoe") (str "john@example.com")
                  (str "SecurePass123")) fresh_mock in
  fst r = Returned expected_user
  /\ world (snd r) = fresh_mock
  /\ calls (snd r)
     = [Call_find_by_email (str "john@example.com");
        Call_hash (str "SecurePass123");
        Call_save (str "johndoe") (str "john@example.com")
          (str "hashed_password_123")]
  /\ List.filter is_hash (calls (snd r)) = [Call_hash (str "SecurePass123")]
  /\ List.filter is_save (calls (snd r))
     = [Call_save (str "johndoe") (str "john@example.com")
          (str "hashed_password_123")].
Proof.
  exact (create_user_success (str "johndoe") (str "john@example.com")
           (str "SecurePass123") fresh_mock fresh_mock fresh_mock
           (str "hashed_password_123")
           eq_refl eq_refl eq_refl eq_refl eq_refl).
Defined.

Lemma create_user_existing_witness :
  let r := run (create_user (str "johndoe") (str "john@example.com")
                  (str "SecurePass123")) taken_mock in
  fails_with (fst r) AlreadyExists
  /\ world (snd r) = taken_mock
  /\ calls (snd r) = [Call_find_by_email (str "john@example.com")]
  /\ List.filter is_save (calls (snd r)) = []
  /\ List.filter is_hash (calls (snd r)) = [].
Proof.
  apply (create_user_existing (str "johndoe") (str "john@example.com")
           (str "SecurePass123") taken_mock taken_mock expected_user);
    reflexivity.
Defined.

Lemma validation_order_witness :
  let st := {| world := fresh_mock; calls := [] |} in
  let too_short := InvalidUsernameError
    (str "Username must be 3-30 characters and contain only letters, numbers, and underscores") in
  let no_email := InvalidEmailError (str "Invalid email format: notanemail") in
  let too_weak := WeakPasswordError (str "Password must be at least 12 characters") in
  (create_user (str "ab") (str "notanemail") (str "short") st
     = (Raised too_short, st)
   /\ failure_of too_short = InvalidUsername)
  /\ (create_user (str "johndoe") (str "notanemail") (str "short") st
      = (Raised no_email, st)
      /\ failure_of no_email = InvalidEmail)
  /\ (create_user (str "johndoe") (str "john@example.com") (str "short") st
      = (Raised too_weak, st)
      /\ failure_of too_weak = WeakPassword).
Proof.
  intros st too_short no_email too_weak. split; [|split].
  - apply (proj1 (validation_order (str "ab") (str "notanemail")
                    (str "short") st)).
    reflexivity.
  - apply (proj1 (proj2 (validation_order (str "johndoe") (str "notanemail")
                           (str "short") st)));
      reflexivity.
  - apply (proj1 (proj2 (proj2 (validation_order (str "johndoe")
                                  (str "john@example.com") (str "short") st))));
      reflexivity.
Defined.

Lemma weak_password_rejected_witness :
  fails_with
    (fst (run (create_user (str "johndoe") (str "john@example.com")
                 (str "nouppercase123")) fresh_mock))
    WeakPassword.
Proof.
  apply (proj1 weak_password_rejected (str "johndoe") (str "john@example.com")
           (str "nouppercase123") {| world := fresh_mock; calls := [] |});
    [reflexivity | reflexivity |].
  right. left. reflexivity.
Defined.

(** *** The final newline *)

(** C3. The username [abc] followed by a newline has a character outside
    [[A-Za-z0-9_]], and thirty letters followed by a newline are 31
    characters: both pass [_validate_username], and [create_user] goes on
    to hash and to save with the first. *)
Theorem username_final_newline_accepted `{CharDB} :
  let u := str "abc" ++ [NEWLINE] in
  let v := repeat (chr "a") 30 ++ [NEWLINE] in
  has_outside USERNAME_CHARS u = true
  /\ _validate_username u = Returned tt
  /\ run (create_user u (str "john@example.com") (str "SecurePass123")) fresh_mock
     = (Returned expected_user,
        {| world := fresh_mock;
           calls := [Call_find_by_email (str "john@example.com");
                     Call_hash (str "SecurePass123");
                     Call_save u (str "john@example.com")
                       (str "hashed_password_123")] |})
  /\ length v = 31%nat
  /\ _validate_username v = Returned tt.
Proof.
  intros u v. repeat split; try (vm_compute; reflexivity).
  unfold run. rewrite create_user_eq, SecurePass123_passes.
  replace (_validate_username u) with (Returned tt) by (vm_compute; reflexivity).
  replace (_validate_email (str "john@example.com")) with (Returned tt)
    by (vm_compute; reflexivity).
  reflexivity.
Qed.

(** C5. The email [john@example.com] followed by a newline contains
    whitespace, and what follows its last dot is not made of letters only:
    it passes [_validate_email], and [create_user] goes on to look it up,
    to hash and to save with it. *)
Theorem email_final_newline_accepted `{CharDB} :
  let e := str "john@example.com" ++ [NEWLINE] in
  has_whitespace e = true
  /\ has_outside ALPHA (str "com" ++ [NEWLINE]) = true
  /\ _validate_email e = Returned tt
  /\ run (create_user (str "johndoe") e (str "SecurePass123")) fresh_mock
     = (Returned expected_user,
        {| world := fresh_mock;
           calls := [Call_find_by_email e;
                     Call_hash (str "SecurePass123");
                     Call_save (str "johndoe") e (str "hashed_password_123")] |}).
Proof.
  intros e. repeat split; try (vm_compute; reflexivity).
  unfold run. rewrite create_user_eq, SecurePass123_passes.
  replace (_validate_username (str "johndoe")) with (Returned tt)
    by (vm_compute; reflexivity).
  replace (_validate_email e) with (Returned tt) by (vm_compute; reflexivity).
  reflexivity.
Qed.

(** Apart from that newline the rules hold. *)

Lemma has_outside_forallb rs s :
  has_outside rs s = true -> forallb (in_set rs) s = true -> False.
Proof.
  unfold has_outside. induction s as [|c t IH]; simpl; [discriminate|].
  destruct (in_set rs c); simpl; [assumption | discriminate].
Qed.

Lemma malformed_username_no_match u :
  malformed_username u ->
  (forall t, username_word t -> u <> t ++ [NEWLINE]) ->
  USERNAME_REGEX u = false.
Proof.
  intros Hm Hn. destruct (USERNAME_REGEX u) eqn:E; [|reflexivity]. exfalso.
  apply USERNAME_REGEX_spec in E as [[Hl Hc]|(t & -> & Ht)].
  - destruct Hm as [?|[?|Ho]]; [lia | lia |].
    eapply has_outside_forallb; eassumption.
  - eapply Hn; eauto.
Qed.

Ltac char_bounds H :=
  unfold in_set, LOCAL_CHARS, DOMAIN_CHARS, ALPHA, USERNAME_CHARS, alnum, one,
    in_range, chr in H;
  simpl in H;
  rewrite ?orb_true_iff, ?andb_true_iff, ?N.leb_le in H.

Lemma printable_not_whitespace c : 33 <= c -> is_whitespace c = false.
Proof.
  intros Hc. unfold is_whitespace.
  apply orb_false_iff. split.
  - apply andb_false_iff. right. apply N.leb_gt. lia.
  - apply N.eqb_neq. lia.
Qed.

Lemma local_char_printable c : in_set LOCAL_CHARS c = true -> 33 <= c.
Proof. intros H. char_bounds H. lia. Qed.

Lemma domain_char_printable c : in_set DOMAIN_CHARS c = true -> 33 <= c.
Proof. intros H. char_bounds H. lia. Qed.

Lemma alpha_char_printable c : in_set ALPHA c = true -> 33 <= c.
Proof. intros H. char_bounds H. lia. Qed.

Lemma no_whitespace_in rs s :
  (forall c, in_set rs c = true -> 33 <= c) ->
  forallb (in_set rs) s = true -> existsb is_whitespace s = false.
Proof.
  intros Hrs. induction s as [|c t IH]; simpl; [reflexivity|].
  intros E. apply andb_true_iff in E as [Hc Ht].
  rewrite printable_not_whitespace by auto. simpl. auto.
Qed.

Lemma email_shape_well_formed e : email_shape e -> ~ malformed_email e.
Proof.
  intros (l & d & t & -> & Hl1 & Hl2 & Hd1 & Hd2 & Ht1 & Ht2) [E|[E|[E|E]]].
  - destruct l; discriminate.
  - unfold has_whitespace in E.
    rewrite existsb_app in E. simpl in E. rewrite existsb_app in E. simpl in E.
    rewrite (no_whitespace_in LOCAL_CHARS), (no_whitespace_in DOMAIN_CHARS),
      (no_whitespace_in ALPHA) in E
      by auto using local_char_printable, domain_char_printable,
           alpha_char_printable.
    discriminate.
  - apply Hl1. eapply E. reflexivity.
  - eapply E; [reflexivity|]. exists d, t. auto.
Qed.

Lemma malformed_email_no_match e :
  malformed_email e ->
  (forall t, email_shape t -> e <> t ++ [NEWLINE]) ->
  EMAIL_REGEX e = false.
Proof.
  intros Hm Hn. destruct (EMAIL_REGEX e) eqn:E; [|reflexivity]. exfalso.
  apply EMAIL_REGEX_spec in E as [Hs|(t & -> & Ht)].
  - eapply email_shape_well_formed; eassumption.
  - eapply Hn; eauto.
Qed.

Section Rejections.
Context `{CharDB} {World : Type}.
Context `{!UserRepository World} `{!PasswordHasher World}.

(** Every malformed username other than a well-formed one followed by a
    newline makes [create_user] fail with [InvalidUsername], whatever the
    email and the password. *)
Lemma malformed_username_rejected u e p (st : state World) :
  malformed_username u ->
  (forall t, username_word t -> u <> t ++ [NEWLINE]) ->
  fails_with (fst (create_user u e p st)) InvalidUsername
  /\ snd (create_user u e p st) = st.
Proof.
  intros Hm Hn.
  destruct (validate_username_raises u (malformed_username_no_match u Hm Hn))
    as [msg Hu].
  rewrite create_user_eq, Hu. split; [|reflexivity].
  eexists. split; reflexivity.
Qed.

(** Every malformed email other than a well-formed one followed by a
    newline makes [create_user], called with a valid username, fail with
    [InvalidEmail]. *)
Lemma malformed_email_rejected u e p (st : state World) :
  _validate_username u = Returned tt ->
  malformed_email e ->
  (forall t, email_shape t -> e <> t ++ [NEWLINE]) ->
  fails_with (fst (create_user u e p st)) InvalidEmail
  /\ snd (create_user u e p st) = st.
Proof.
  intros Hu Hm Hn.
  destruct (validate_email_raises e (malformed_email_no_match e Hm Hn))
    as [msg He].
  rewrite create_user_eq, Hu, He. split; [|reflexivity].
  eexists. split; reflexivity.
Qed.

End Rejections.

End UserServiceFacts.

(** ** The JWT demo *)

Module JwtFacts.
Import JwtAuth.

Local Open Scope Z_scope.
Local Open Scope string_scope.

Section Tokens.
Context `{JwtLibrary Token}.

(** The payload both [create_*_token] functions build. *)
Local Abbreviation claims_of user_id expire iat kind :=
  (<["sub" := user_id]> (<["exp" := VTime expire]>
     (<["iat" := VTime iat]> (<["type" := VStr kind]> (∅ : gmap string value))))).

Lemma claims_sub user_id expire iat kind :
  dict_get (claims_of user_id expire iat kind) "sub" = user_id.
Proof. unfold dict_get. by simplify_map_eq. Qed.

Lemma claims_type user_id expire iat kind :
  dict_get (claims_of user_id expire iat kind) "type" = VStr kind.
Proof. unfold dict_get. by simplify_map_eq. Qed.

Lemma claims_exp user_id expire iat kind now :
  exp_passed now (claims_of user_id expire iat kind) = (expire <=? now)%Z.
Proof. unfold exp_passed. by simplify_map_eq. Qed.

Lemma claims_lookups user_id expire iat kind :
  claims_of user_id expire iat kind !! "sub" = Some user_id
  /\ claims_of user_id expire iat kind !! "type" = Some (VStr kind)
  /\ claims_of user_id expire iat kind !! "exp" = Some (VTime expire).
Proof. repeat split; by simplify_map_eq. Qed.

(** [decode_token] in terms of the two checks of the library. *)
Lemma decode_token_eq now (token : Token) :
  decode_token now token =
  match jws_decode token SECRET_KEY [ALGORITHM] with
  | None => Uncaught (AttributeError "jwt" "JWTError")
  | Some payload =>
      if exp_passed now payload then
        Raise {| status_code := HTTP_401_UNAUTHORIZED;
                 detail := "Token has expired";
                 headers := Some [("WWW-Authenticate", "Bearer")] |}
      else Ok payload
  end.
Proof.
  unfold decode_token, decode.
  destruct (jws_decode token SECRET_KEY [ALGORITHM]) as [payload|]; [|reflexivity].
  simpl. destruct (exp_passed now payload); reflexivity.
Qed.

Lemma decode_token_ok now (token : Token) payload :
  decode now token SECRET_KEY [ALGORITHM] true = inr payload ->
  decode_token now token = Ok payload.
Proof. unfold decode_token. intros ->. reflexivity. Qed.

Lemma decode_token_rejected now (token : Token) :
  jws_decode token SECRET_KEY [ALGORITHM] = None ->
  decode_token now token = Uncaught (AttributeError "jwt" "JWTError").
Proof. intros E. rewrite decode_token_eq, E. reflexivity. Qed.

Lemma decode_token_expired now (token : Token) payload :
  jws_decode token SECRET_KEY [ALGORITHM] = Some payload ->
  exp_passed now payload = true ->
  exists e, decode_token now token = Raise e
    /\ status_code e = HTTP_401_UNAUTHORIZED /\ failure_of e = Expired.
Proof. intros E X. rewrite decode_token_eq, E, X. eexists. repeat split. Qed.

Lemma decode_token_live now (token : Token) payload :
  jws_decode token SECRET_KEY [ALGORITHM] = Some payload ->
  exp_passed now payload = false ->
  decode_token now token = Ok payload.
Proof. intros E X. rewrite decode_token_eq, E, X. reflexivity. Qed.

Lemma get_current_user_raises now (token : Token) e :
  decode_token now token = Raise e -> get_current_user now token = Raise e.
Proof. unfold get_current_user. intros ->. reflexivity. Qed.

Lemma refresh_token_raises now c1 c2 (token : Token) e :
  decode_token now token = Raise e -> refresh_token now c1 c2 token = Raise e.
Proof. unfold refresh_token. intros ->. reflexivity. Qed.

Lemma get_current_user_uncaught now (token : Token) e :
  decode_token now token = Uncaught e -> get_current_user now token = Uncaught e.
Proof. unfold get_current_user. intros ->. reflexivity. Qed.

Lemma refresh_token_uncaught now c1 c2 (token : Token) e :
  decode_token now token = Uncaught e ->
  refresh_token now c1 c2 token = Uncaught e.
Proof. unfold refresh_token. intros ->. reflexivity. Qed.

Lemma get_current_user_wrong_type now (token : Token) payload :
  decode_token now token = Ok payload ->
  dict_get payload "type" <> VStr "access" ->
  fails_with (get_current_user now token) Invalid.
Proof.
  intros E K. unfold get_current_user. rewrite E.
  rewrite bool_decide_eq_true_2 by assumption.
  eexists. repeat split.
Qed.

Lemma refresh_token_wrong_type now c1 c2 (token : Token) payload :
  decode_token now token = Ok payload ->
  dict_get payload "type" <> VStr "refresh" ->
  fails_with (refresh_token now c1 c2 token) Invalid.
Proof.
  intros E K. unfold refresh_token. rewrite E.
  rewrite bool_decide_eq_true_2 by assumption.
  eexists. repeat split.
Qed.

Lemma issued_access_decodes clock1 clock2 user_id :
  jws_decode (create_access_token clock1 clock2 user_id) SECRET_KEY [ALGORITHM]
  = Some (claims_of user_id (clock1 + minutes ACCESS_TOKEN_EXPIRE_MINUTES)
            clock2 "access").
Proof. unfold create_access_token. apply jws_decode_encode. Qed.

Lemma issued_refresh_decodes clock1 clock2 user_id :
  jws_decode (create_refresh_token clock1 clock2 user_id) SECRET_KEY [ALGORITHM]
  = Some (claims_of user_id (clock1 + days REFRESH_TOKEN_EXPIRE_DAYS)
            clock2 "refresh").
Proof. unfold create_refresh_token. apply jws_decode_encode. Qed.

(** C2. An access token issued for [s] verifies as an access token to [s]
    before its lifetime is over, and fails with [Expired] from then on;
    presented where a refresh token is expected it fails with [Invalid].
    For any token the signature is checked first: when that check fails,
    verification ends there, whatever the expiry and the kind (it ends in
    the [AttributeError] of the handler, not in a refusal); else it fails
    with [Expired] when the expiry has passed, and only then with [Invalid]
    when the kind is not the expected one. *)
Theorem access_token_round_trip (s : string) (clock1 clock2 now : Z) :
  let token := create_access_token clock1 clock2 (VStr s) in
  let expire := clock1 + minutes ACCESS_TOKEN_EXPIRE_MINUTES in
  (now < expire -> get_current_user now token = Ok (VStr s))
  /\ (expire <= now -> fails_with (get_current_user now token) Expired)
  /\ (now < expire ->
      forall c1 c2, fails_with (refresh_token now c1 c2 token) Invalid)
  /\ (forall tok : Token,
       jws_decode tok SECRET_KEY [ALGORITHM] = None ->
       get_current_user now tok = Uncaught (AttributeError "jwt" "JWTError")
       /\ forall c1 c2,
           refresh_token now c1 c2 tok
           = Uncaught (AttributeError "jwt" "JWTError"))
  /\ (forall (tok : Token) payload,
       jws_decode tok SECRET_KEY [ALGORITHM] = Some payload ->
       exp_passed now payload = true ->
       fails_with (get_current_user now tok) Expired
       /\ forall c1 c2, fails_with (refresh_token now c1 c2 tok) Expired)
  /\ (forall (tok : Token) payload,
       jws_decode tok SECRET_KEY [ALGORITHM] = Some payload ->
       exp_passed now payload = false ->
       (dict_get payload "type" <> VStr "access" ->
        fails_with (get_current_user now tok) Invalid)
       /\ (dict_get payload "type" <> VStr "refresh" ->
           forall c1 c2, fails_with (refresh_token now c1 c2 tok) Invalid)).
Proof.
  intros token expire.
  assert (forall t, t < expire ->
            decode_token t token
            = Ok (claims_of (VStr s) expire clock2 "access")) as Live.
  { intros t Ht. eapply decode_token_live; [apply issued_access_decodes|].
    rewrite claims_exp. apply Z.leb_gt. exact Ht. }
  split; [|split; [|split; [|split; [|split]]]].
  - intros Hnow. unfold get_current_user. rewrite (Live _ Hnow).
    rewrite claims_type, claims_sub. reflexivity.
  - intros Hnow.
    destruct (decode_token_expired now token _
                (issued_access_decodes clock1 clock2 (VStr s)))
      as (e & E & Hs & Hk).
    { rewrite claims_exp. apply Z.leb_le. exact Hnow. }
    exists e. rewrite (get_current_user_raises _ _ _ E). auto.
  - intros Hnow c1 c2. eapply refresh_token_wrong_type; [apply Live, Hnow|].
    rewrite claims_type. discriminate.
  - intros tok E. pose proof (decode_token_rejected now tok E) as E'.
    split; [|intros c1 c2].
    + apply get_current_user_uncaught. exact E'.
    + apply refresh_token_uncaught. exact E'.
  - intros tok payload E X.
    destruct (decode_token_expired now tok payload E X) as (e & E' & Hs & Hk).
    split; [|intros c1 c2]; exists e.
    + rewrite (get_current_user_raises _ _ _ E'). auto.
    + rewrite (refresh_token_raises _ _ _ _ _ E'). auto.
  - intros tok payload E X. pose proof (decode_token_live now tok payload E X).
    split; intros K.
    + eapply get_current_user_wrong_type; eassumption.
    + intros c1 c2. eapply refresh_token_wrong_type; eassumption.
Qed.

(** C9. A refresh token that verifies (valid signature, not expired) with
    subject [s] makes the refresh route answer with a new access token
    issued for [s], and with the refresh token it was given, as it is; the
    new access token carries the subject [s] and the kind [access].  A
    token of kind [access] that verifies is refused with [Invalid]. *)
Theorem refresh_flow now clock1 clock2 (token : Token) payload (s : value) :
  decode now token SECRET_KEY [ALGORITHM] true = inr payload ->
  dict_get payload "sub" = s ->
  (dict_get payload "type" = VStr "refresh" ->
   refresh_token now clock1 clock2 token
   = Ok {| access_token := create_access_token clock1 clock2 s;
           refresh_token_field := token;
           token_type := "bearer";
           expires_in := 900 |}
   /\ exists issued,
       jws_decode (create_access_token clock1 clock2 s) SECRET_KEY [ALGORITHM]
       = Some issued
       /\ dict_get issued "sub" = s
       /\ dict_get issued "type" = VStr "access")
  /\ (dict_get payload "type" = VStr "access" ->
      fails_with (refresh_token now clock1 clock2 token) Invalid).
Proof.
  intros Hd Hs. apply decode_token_ok in Hd. split; intros Hk.
  - split.
    + unfold refresh_token. rewrite Hd, Hk, Hs.
      rewrite bool_decide_eq_false_2 by (intros K; apply K; reflexivity).
      reflexivity.
    + eexists. split; [apply issued_access_decodes|].
      rewrite claims_sub, claims_type. auto.
  - eapply refresh_token_wrong_type; [eassumption|]. rewrite Hk. discriminate.
Qed.

(** C10. A token that verifies (valid signature, not expired) and has no
    subject claim: with kind [refresh], the refresh route accepts it and
    issues an access token, one whose payload has the subject [None], the
    kind [access] and the expiry of an access token; with kind [access],
    [get_current_user] refuses it with [Invalid] (401). *)
Theorem missing_subject now clock1 clock2 (token : Token) payload :
  decode now token SECRET_KEY [ALGORITHM] true = inr payload ->
  payload !! "sub" = None ->
  (dict_get payload "type" = VStr "refresh" ->
   refresh_token now clock1 clock2 token
   = Ok {| access_token := create_access_token clock1 clock2 VNone;
           refresh_token_field := token;
           token_type := "bearer";
           expires_in := 900 |}
   /\ exists issued,
       jws_decode (create_access_token clock1 clock2 VNone)
         SECRET_KEY [ALGORITHM] = Some issued
       /\ issued !! "sub" = Some VNone
       /\ issued !! "type" = Some (VStr "access")
       /\ issued !! "exp"
          = Some (VTime (clock1 + minutes ACCESS_TOKEN_EXPIRE_MINUTES)))
  /\ (dict_get payload "type" = VStr "access" ->
      fails_with (get_current_user now token) Invalid).
Proof.
  intros Hd Hs. apply decode_token_ok in Hd.
  assert (dict_get payload "sub" = VNone) as Hn
    by (unfold dict_get; rewrite Hs; reflexivity).
  split; intros Hk.
  - split.
    + unfold refresh_token. rewrite Hd, Hk, Hn.
      rewrite bool_decide_eq_false_2 by (intros K; apply K; reflexivity).
      reflexivity.
    + eexists. split; [apply issued_access_decodes|]. apply claims_lookups.
  - unfold get_current_user. rewrite Hd, Hk, Hn.
    rewrite bool_decide_eq_false_2 by (intros K; apply K; reflexivity).
    rewrite bool_decide_eq_true_2 by reflexivity.
    eexists. repeat split.
Qed.

End Tokens.

(** *** The theorems at work, on the plain library *)

Lemma access_token_round_trip_witness :
  let token : plain_token := create_access_token 1000 1001 (VStr "user_123") in
  let forged : plain_token :=
    {| claims := claims token;
       signed_with := "another-key";
       signed_alg := ALGORITHM |} in
  get_current_user 1200 token = Ok (VStr "user_123")
  /\ fails_with (get_current_user 1900 token) Expired
  /\ fails_with (refresh_token 1200 1200 1201 token) Invalid
  /\ get_current_user 1200 forged = Uncaught (AttributeError "jwt" "JWTError").
Proof.
  intros token forged. split; [|split; [|split]].
  - apply (proj1 (access_token_round_trip "user_123" 1000 1001 1200)).
    reflexivity.
  - apply (proj1 (proj2 (access_token_round_trip "user_123" 1000 1001 1900))).
    discriminate.
  - apply (proj1 (proj2 (proj2
             (access_token_round_trip "user_123" 1000 1001 1200)))).
    reflexivity.
  - apply (proj1 (proj2 (proj2 (proj2
             (access_token_round_trip "user_123" 1000 1001 1200))))).
    reflexivity.
Defined.

Lemma refresh_flow_witness :
  let token : plain_token := create_refresh_token 1000 1001 (VStr "user_123") in
  let stale : plain_token := create_access_token 1000 1001 (VStr "user_123") in
  refresh_token 1200 1200 1201 token
  = Ok {| access_token := create_access_token 1200 1201 (VStr "user_123");
          refresh_token_field := token;
          token_type := "bearer";
          expires_in := 900 |}
  /\ fails_with (refresh_token 1200 1200 1201 stale) Invalid.
Proof.
  intros token stale. split.
  - apply (refresh_flow 1200 1200 1201 token (claims token) (VStr "user_123"));
      reflexivity.
  - apply (refresh_flow 1200 1200 1201 stale (claims stale) (VStr "user_123"));
      reflexivity.
Defined.

Lemma missing_subject_witness :
  let claims_of kind : gmap string value :=
    <["exp" := VTime 5000]> (<["type" := VStr kind]> ∅) in
  let anonymous_refresh : plain_token := encode (claims_of "refresh") SECRET_KEY ALGORITHM in
  let anonymous_access : plain_token := encode (claims_of "access") SECRET_KEY ALGORITHM in
  (refresh_token 1200 1200 1201 anonymous_refresh
   = Ok {| access_token := create_access_token 1200 1201 VNone;
           refresh_token_field := anonymous_refresh;
           token_type := "bearer";
           expires_in := 900 |}
   /\ exists issued,
       jws_decode (create_access_token 1200 1201 VNone : plain_token)
         SECRET_KEY [ALGORITHM] = Some issued
       /\ issued !! "sub" = Some VNone
       /\ issued !! "type" = Some (VStr "access")
       /\ issued !! "exp" = Some (VTime 2100))
  /\ fails_with (get_current_user 1200 anonymous_access) Invalid.
Proof.
  intros claims_of anonymous_refresh anonymous_access. split.
  - exact (proj1 (missing_subject 1200 1200 1201 anonymous_refresh
                    (claims_of "refresh") eq_refl eq_refl) eq_refl).
  - exact (proj2 (missing_subject 1200 1200 1201 anonymous_access
                    (claims_of "access") eq_refl eq_refl) eq_refl).
Defined.

End JwtFacts.

(** ** More on the user service *)

Module UserServiceMore.
Import Regex RegexFacts UserService Shapes MoreShapes UserServiceFacts Doubles.

(** *** What the validators accept *)

Lemma username_accepted_cases u :
  _validate_username u = Returned tt <->
  username_word u \/ exists t, u = t ++ [NEWLINE] /\ username_word t.
Proof. rewrite validate_username_returns. apply USERNAME_REGEX_spec. Qed.

Lemma email_accepted_cases e :
  _validate_email e = Returned tt <->
  email_shape e \/ exists t, e = t ++ [NEWLINE] /\ email_shape t.
Proof. rewrite validate_email_returns. apply EMAIL_REGEX_spec. Qed.

(** X1. [_validate_username] returns exactly on the words of 3 to 30
    characters of [[a-zA-Z0-9_]], and on such a word followed by one
    newline; on every other string it raises. *)
Theorem validate_username_accepts u :
  _validate_username u = Returned tt <->
  username_word u \/ exists t, u = t ++ [NEWLINE] /\ username_word t.
Proof. apply username_accepted_cases. Qed.

(** X2. [_validate_email] returns exactly on the strings
    [local@domain.tld] (a local part of [[a-zA-Z0-9._%+-]], a domain of
    [[a-zA-Z0-9.-]], a last label of two or more letters), and on such a
    string followed by one newline. *)
Theorem validate_email_accepts e :
  _validate_email e = Returned tt <->
  email_shape e \/ exists t, e = t ++ [NEWLINE] /\ email_shape t.
Proof. apply email_accepted_cases. Qed.

Lemma class_count rs (l : pystr) c :
  (forall d, in_set rs d = true -> d <> c) ->
  forallb (in_set rs) l = true -> count_occ N.eq_dec l c = 0%nat.
Proof.
  intros Hrs. induction l as [|d t IH]; simpl; [reflexivity|].
  intros E. apply andb_true_iff in E as [Hd Ht].
  destruct (N.eq_dec d c) as [->|_]; [exfalso; eapply Hrs; eauto | auto].
Qed.

Lemma local_char_not_at c : in_set LOCAL_CHARS c = true -> c <> AT.
Proof. intros H. char_bounds H. unfold AT, chr. simpl. lia. Qed.

Lemma domain_char_not_at c : in_set DOMAIN_CHARS c = true -> c <> AT.
Proof. intros H. char_bounds H. unfold AT, chr. simpl. lia. Qed.

Lemma alpha_char_not_at c : in_set ALPHA c = true -> c <> AT.
Proof. intros H. char_bounds H. unfold AT, chr. simpl. lia. Qed.

Lemma email_shape_one_at t :
  email_shape t -> count_occ N.eq_dec t AT = 1%nat /\ (6 <= length t)%nat.
Proof.
  intros (l & d & x & -> & Hl1 & Hl2 & Hd1 & Hd2 & Hx1 & Hx2). split.
  - rewrite count_occ_app. change (chr "@") with AT.
    rewrite count_occ_cons_eq by reflexivity.
    rewrite count_occ_app.
    rewrite count_occ_cons_neq by (vm_compute; discriminate).
    rewrite (class_count LOCAL_CHARS), (class_count DOMAIN_CHARS),
      (class_count ALPHA)
      by auto using local_char_not_at, domain_char_not_at, alpha_char_not_at.
    reflexivity.
  - apply nonempty_length in Hl1, Hd1.
    rewrite length_app. simpl. rewrite length_app. simpl. lia.
Qed.

(** X3. An email that passes [_validate_email] has exactly one [@] and at
    least six characters. *)
Theorem accepted_email_one_at e :
  _validate_email e = Returned tt ->
  count_occ N.eq_dec e AT = 1%nat /\ (6 <= length e)%nat.
Proof.
  intros H. apply email_accepted_cases in H as [H|(t & -> & H)];
    apply email_shape_one_at in H as [H1 H2].
  - auto.
  - rewrite count_occ_app, length_app, H1. simpl. split; [reflexivity | lia].
Qed.

Lemma accepted_email_one_at_witness :
  count_occ N.eq_dec (str "john@example.com") AT = 1%nat
  /\ (6 <= length (str "john@example.com"))%nat.
Proof. apply (accepted_email_one_at (str "john@example.com")). reflexivity. Defined.

Lemma class_Forall rs (P : N -> Prop) (l : pystr) :
  (forall c, in_set rs c = true -> P c) ->
  forallb (in_set rs) l = true -> Forall P l.
Proof.
  intros Hrs. induction l as [|c t IH]; simpl; [constructor|].
  intros E. apply andb_true_iff in E as [Hc Ht]. constructor; auto.
Qed.

Lemma username_char_ascii c : in_set USERNAME_CHARS c = true -> c < 128.
Proof. intros H. char_bounds H. lia. Qed.

Lemma local_char_ascii c : in_set LOCAL_CHARS c = true -> c < 128.
Proof. intros H. char_bounds H. lia. Qed.

Lemma domain_char_ascii c : in_set DOMAIN_CHARS c = true -> c < 128.
Proof. intros H. char_bounds H. lia. Qed.

Lemma alpha_char_ascii c : in_set ALPHA c = true -> c < 128.
Proof. intros H. char_bounds H. lia. Qed.

Lemma email_shape_ascii t : email_shape t -> Forall (fun c => c < 128) t.
Proof.
  intros (l & d & x & -> & _ & Hl & _ & Hd & _ & Hx).
  apply Forall_app. split; [eapply class_Forall; eauto using local_char_ascii|].
  constructor; [vm_compute; reflexivity|].
  apply Forall_app. split; [eapply class_Forall; eauto using domain_char_ascii|].
  constructor; [vm_compute; reflexivity|].
  eapply class_Forall; eauto using alpha_char_ascii.
Qed.

(** X4. A username or an email with a character outside ASCII never
    passes validation: what the validators let through is made of code
    points below 128. *)
Theorem accepted_is_ascii :
  (forall u, _validate_username u = Returned tt -> Forall (fun c => c < 128) u)
  /\ (forall e, _validate_email e = Returned tt -> Forall (fun c => c < 128) e).
Proof.
  split.
  - intros u H. apply username_accepted_cases in H as [[_ H]|(t & -> & _ & H)].
    + eapply class_Forall; eauto using username_char_ascii.
    + apply Forall_app. split; [eapply class_Forall; eauto using username_char_ascii|].
      constructor; [vm_compute; reflexivity | constructor].
  - intros e H. apply email_accepted_cases in H as [H|(t & -> & H)].
    + apply email_shape_ascii. assumption.
    + apply Forall_app. split; [apply email_shape_ascii; assumption|].
      constructor; [vm_compute; reflexivity | constructor].
Qed.

Lemma accepted_is_ascii_witness :
  Forall (fun c => c < 128) (str "johndoe")
  /\ Forall (fun c => c < 128) (str "john@example.com").
Proof.
  split.
  - apply (proj1 accepted_is_ascii (str "johndoe")). reflexivity.
  - apply (proj2 accepted_is_ascii (str "john@example.com")). reflexivity.
Defined.

(** *** The calls of [create_user] *)

Section Calls.
Context `{CharDB} {World : Type}.
Context `{!UserRepository World} `{!PasswordHasher World}.

(** X5. Whatever the input and the collaborators, the calls [create_user]
    makes are a beginning of: [find_by_email(email)], [hash(password)],
    [save(username, email, h)].  So it never calls [verify] or
    [find_by_id], never saves twice, and never saves before the lookup and
    the hashing. *)
Theorem create_user_call_discipline u e p (st : state World) :
  exists l,
    calls (snd (create_user u e p st)) = calls st ++ l
    /\ (l = []
        \/ l = [Call_find_by_email e]
        \/ l = [Call_find_by_email e; Call_hash p]
        \/ exists h, l = [Call_find_by_email e; Call_hash p; Call_save u e h]).
Proof.
  rewrite create_user_eq.
  destruct (_validate_username u);
    [|exists ([]); rewrite app_nil_r; auto].
  destruct (_validate_email e);
    [|exists ([]); rewrite app_nil_r; auto].
  destruct (_validate_password p);
    [|exists ([]); rewrite app_nil_r; auto].
  cbn zeta.
  destruct (find_by_email e (world st)) as [[[?|]|] w1]; cbn [fst snd after calls world];
    try solve [exists ([Call_find_by_email e]); auto].
  destruct (hash p w1) as [[h|] w2]; cbn [fst snd after calls world].
  - exists ([Call_find_by_email e; Call_hash p; Call_save u e h]).
    rewrite <- !app_assoc. simpl. eauto 6.
  - exists ([Call_find_by_email e; Call_hash p]).
    rewrite <- !app_assoc. simpl. auto.
Qed.

(** X6. With validated input, an exception of the lookup is the exception
    of [create_user], and nothing is hashed or saved; when the lookup
    finds nothing, an exception of [hash] is the exception of
    [create_user], and nothing is saved.  The exception is not translated. *)
Theorem collaborator_failure_propagates u e p w0 w1 x :
  _validate_username u = Returned tt ->
  _validate_email e = Returned tt ->
  _validate_password p = Returned tt ->
  (find_by_email e w0 = (Raised x, w1) ->
   run (create_user u e p) w0
   = (Raised x, {| world := w1; calls := [Call_find_by_email e] |}))
  /\ (find_by_email e w0 = (Returned None, w1) ->
      forall w2, hash p w1 = (Raised x, w2) ->
      run (create_user u e p) w0
      = (Raised x, {| world := w2;
                      calls := [Call_find_by_email e; Call_hash p] |})).
Proof.
  intros Hu He Hp. split.
  - intros Hf. unfold run. rewrite create_user_eq, Hu, He, Hp.
    cbn [world calls]. rewrite Hf. reflexivity.
  - intros Hf w2 Hh. unfold run. rewrite create_user_eq, Hu, He, Hp.
    cbn [world calls]. rewrite Hf. cbn [fst snd after world calls].
    rewrite Hh. reflexivity.
Qed.

End Calls.

Lemma collaborator_failure_propagates_witness :
  run (create_user (UserRepository0 := scripted_repository)
         (PasswordHasher0 := scripted_hasher)
         (str "johndoe") (str "john@example.com") (str "SecurePass123"))
      lookup_fails
  = (Raised database_down,
     {| world := lookup_fails;
        calls := [Call_find_by_email (str "john@example.com")] |})
  /\ run (create_user (UserRepository0 := scripted_repository)
            (PasswordHasher0 := scripted_hasher)
            (str "johndoe") (str "john@example.com") (str "SecurePass123"))
         hasher_fails
     = (Raised (OtherError (str "ValueError")),
        {| world := hasher_fails;
           calls := [Call_find_by_email (str "john@example.com");
                     Call_hash (str "SecurePass123")] |}).
Proof.
  split.
  - exact (proj1 (collaborator_failure_propagates
             (UserRepository0 := scripted_repository)
             (PasswordHasher0 := scripted_hasher)
             (str "johndoe") (str "john@example.com") (str "SecurePass123")
             lookup_fails lookup_fails database_down
             eq_refl eq_refl eq_refl) eq_refl).
  - exact (proj2 (collaborator_failure_propagates
             (UserRepository0 := scripted_repository)
             (PasswordHasher0 := scripted_hasher)
             (str "johndoe") (str "john@example.com") (str "SecurePass123")
             hasher_fails hasher_fails (OtherError (str "ValueError"))
             eq_refl eq_refl eq_refl) eq_refl hasher_fails eq_refl).
Defined.

(** *** The hasher of the integration tests *)

Lemma hashed_differs (p : pystr) : str "hashed_" ++ p <> p.
Proof.
  intros E. apply (f_equal length) in E. rewrite length_app in E.
  simpl in E. lia.
Qed.

Lemma hashed_inj (p q : pystr) :
  str "hashed_" ++ p = str "hashed_" ++ q <-> p = q.
Proof. split; [apply app_inv_head | intros ->; reflexivity]. Qed.

(** X7. [TestPasswordHasher]: [verify(p, hash(q))] is true exactly when
    [p] is [q]; the hash of a password is never the password; neither
    method changes the world or raises. *)
Theorem test_hasher_round_trip {World : Type} (w : World) (p q : pystr) :
  exists h,
    hash (PasswordHasher := TestPasswordHasher World) q w = (Returned h, w)
    /\ verify (PasswordHasher := TestPasswordHasher World) p h w
       = (Returned (bool_decide (p = q)), w)
    /\ h <> q.
Proof.
  exists (str "hashed_" ++ q). split; [reflexivity|]. split.
  - change (verify (PasswordHasher := TestPasswordHasher World) p
              (str "hashed_" ++ q) w)
      with (@Returned bool
              (bool_decide (str "hashed_" ++ p = str "hashed_" ++ q)), w).
    rewrite (bool_decide_ext _ _ (hashed_inj p q)). reflexivity.
  - apply hashed_differs.
Qed.

Section WithTestHasher.
Context `{CharDB} {World : Type} `{!UserRepository World}.

(** X8. [create_user] run with [TestPasswordHasher]: for validated input
    and an email the lookup does not find, [save] receives
    [hashed_] followed by the password, which is not the password and
    which [verify] accepts for that password; the plaintext is in no
    [save] call. *)
Theorem create_user_saves_test_hash u e p w0 w1 :
  _validate_username u = Returned tt ->
  _validate_email e = Returned tt ->
  _validate_password p = Returned tt ->
  find_by_email e w0 = (Returned None, w1) ->
  let hasher := TestPasswordHasher World in
  let r := run (create_user (PasswordHasher0 := hasher) u e p) w0 in
  let h := str "hashed_" ++ p in
  calls (snd r) = [Call_find_by_email e; Call_hash p; Call_save u e h]
  /\ fst r = fst (save u e h w1)
  /\ h <> p
  /\ (Call_save u e p ∉ calls (snd r))
  /\ forall w, verify (PasswordHasher := hasher) p h w = (Returned true, w).
Proof.
  intros Hu He Hp Hf hasher r h. subst r. unfold run.
  rewrite create_user_eq, Hu, He, Hp. cbn [world calls].
  rewrite Hf. subst hasher h.
  cbn [fst snd after world calls hash TestPasswordHasher app].
  split; [reflexivity|]. split; [reflexivity|].
  split; [apply hashed_differs|]. split.
  - intros Hin. apply elem_of_cons in Hin. destruct Hin as [Hin|Hin].
    { discriminate Hin. }
    apply elem_of_cons in Hin. destruct Hin as [Hin|Hin].
    { discriminate Hin. }
    apply list_elem_of_singleton in Hin.
    apply (hashed_differs p). congruence.
  - intros w.
    change (verify (PasswordHasher := TestPasswordHasher World) p
              (str "hashed_" ++ p) w)
      with (@Returned bool
              (bool_decide (str "hashed_" ++ p = str "hashed_" ++ p)), w).
    rewrite bool_decide_eq_true_2 by reflexivity. reflexivity.
Qed.

End WithTestHasher.

Lemma create_user_saves_test_hash_witness :
  let hasher := TestPasswordHasher mock in
  let r := run (create_user (PasswordHasher0 := hasher)
                  (str "johndoe") (str "john@example.com")
                  (str "SecurePass123")) fresh_mock in
  let h := str "hashed_" ++ str "SecurePass123" in
  calls (snd r)
  = [Call_find_by_email (str "john@example.com");
     Call_hash (str "SecurePass123");
     Call_save (str "johndoe") (str "john@example.com") h]
  /\ fst r = Returned expected_user
  /\ h <> str "SecurePass123"
  /\ (Call_save (str "johndoe") (str "john@example.com") (str "SecurePass123")
       ∉ calls (snd r))
  /\ forall w, verify (PasswordHasher := hasher) (str "SecurePass123") h w
               = (Returned true, w).
Proof.
  exact (create_user_saves_test_hash (str "johndoe") (str "john@example.com")
           (str "SecurePass123") fresh_mock fresh_mock
           eq_refl eq_refl eq_refl eq_refl).
Defined.

End UserServiceMore.

(** ** More on the JWT demo *)

Module JwtMore.
Import JwtAuth JwtRoutes JwtFacts.

Local Open Scope Z_scope.
Local Open Scope string_scope.

Section Tokens.
Context `{JwtLibrary Token}.

(** *** When the dependency and the refresh route accept *)

(** X9. [get_current_user] returns [v] exactly for a token whose signature
    verifies, whose expiry has not passed, whose type is [access] and whose
    subject is [v], not [None]. *)
Theorem get_current_user_accepts now (token : Token) (v : value) :
  get_current_user now token = Ok v <->
  exists payload,
    jws_decode token SECRET_KEY [ALGORITHM] = Some payload
    /\ exp_passed now payload = false
    /\ dict_get payload "type" = VStr "access"
    /\ dict_get payload "sub" = v
    /\ v <> VNone.
Proof.
  unfold get_current_user. rewrite decode_token_eq.
  destruct (jws_decode token SECRET_KEY [ALGORITHM]) as [payload|].
  - destruct (exp_passed now payload) eqn:X.
    + split; [discriminate|]. intros (p & [= <-] & X' & _). congruence.
    + case_bool_decide as K.
      * split; [discriminate|]. intros (p & [= <-] & _ & K' & _). congruence.
      * case_bool_decide as S.
        -- split; [discriminate|]. intros (p & [= <-] & _ & _ & S' & N).
           congruence.
        -- split.
           ++ intros [= <-]. exists payload. auto.
           ++ intros (p & [= <-] & _ & _ & S' & _). congruence.
  - split; [discriminate|]. intros (p & E & _). discriminate E.
Qed.

(** X10. The refresh route answers exactly for a token whose signature
    verifies, whose expiry has not passed and whose type is [refresh]; the
    answer then holds an access token for the subject of that token, the
    token that was presented, [bearer] and 900 seconds. *)
Theorem refresh_token_accepts now clock1 clock2 (token : Token) resp :
  refresh_token now clock1 clock2 token = Ok resp <->
  exists payload,
    jws_decode token SECRET_KEY [ALGORITHM] = Some payload
    /\ exp_passed now payload = false
    /\ dict_get payload "type" = VStr "refresh"
    /\ resp = {| access_token :=
                   create_access_token clock1 clock2 (dict_get payload "sub");
                 refresh_token_field := token;
                 token_type := "bearer";
                 expires_in := 900 |}.
Proof.
  unfold refresh_token. rewrite decode_token_eq.
  destruct (jws_decode token SECRET_KEY [ALGORITHM]) as [payload|].
  - destruct (exp_passed now payload) eqn:X.
    + split; [discriminate|]. intros (p & [= <-] & X' & _). congruence.
    + case_bool_decide as K.
      * split; [discriminate|]. intros (p & [= <-] & _ & K' & _). congruence.
      * split.
        -- intros [= <-]. exists payload. auto.
        -- intros (p & [= <-] & _ & _ & ->). reflexivity.
  - split; [discriminate|]. intros (p & E & _). discriminate E.
Qed.

(** X11. How [get_current_user] and the refresh route fail.  Every
    [HTTPException] they raise is a 401 with one of three details.  The
    only other failure is the [AttributeError] of the handler
    [except jwt.JWTError]; it occurs exactly when the library rejects the
    token for another reason than its expiry, so such a token is never
    answered with a 401. *)
Theorem failure_outcomes now (token : Token) :
  let known (e : HTTPException) :=
    status_code e = 401
    /\ (detail e = "Token has expired"
        \/ detail e = "Could not validate credentials"
        \/ detail e = "Invalid token type") in
  let rejected (e : uncaught) :=
    jws_decode token SECRET_KEY [ALGORITHM] = None
    /\ e = AttributeError "jwt" "JWTError" in
  (forall e, get_current_user now token = Raise e -> known e)
  /\ (forall clock1 clock2 e,
        refresh_token now clock1 clock2 token = Raise e -> known e)
  /\ (forall e, get_current_user now token = Uncaught e <-> rejected e)
  /\ (forall clock1 clock2 e,
        refresh_token now clock1 clock2 token = Uncaught e <-> rejected e).
Proof.
  intros known rejected. subst known rejected. cbv beta.
  unfold get_current_user, refresh_token. rewrite decode_token_eq.
  destruct (jws_decode token SECRET_KEY [ALGORITHM]) as [payload|].
  - assert (forall e : uncaught,
              ~ (Some payload = None /\ e = AttributeError "jwt" "JWTError"))
      as No by (intros e [E _]; discriminate E).
    destruct (exp_passed now payload).
    + repeat split; try discriminate; try (intros K; exfalso; eapply No; eauto);
        intros; simplify_eq; simpl; auto.
    + repeat split; try (intros K; exfalso; eapply No; eauto);
        repeat case_bool_decide; try discriminate;
        intros; simplify_eq; simpl; auto.
  - repeat split; try discriminate; try congruence; intros [_ ->]; reflexivity.
Qed.

(** *** Issued tokens *)

Lemma issued_access_verifies now clock1 clock2 (s : string) :
  get_current_user now (create_access_token clock1 clock2 (VStr s))
  = if (clock1 + minutes ACCESS_TOKEN_EXPIRE_MINUTES <=? now)%Z
    then Raise {| status_code := HTTP_401_UNAUTHORIZED;
                  detail := "Token has expired";
                  headers := Some [("WWW-Authenticate", "Bearer")] |}
    else Ok (VStr s).
Proof.
  unfold get_current_user.
  rewrite decode_token_eq, issued_access_decodes, claims_exp.
  destruct (_ <=? now)%Z; [reflexivity|].
  rewrite claims_type, claims_sub. reflexivity.
Qed.

Lemma issued_refresh_as_access now clock1 clock2 (user_id : value) :
  get_current_user now (create_refresh_token clock1 clock2 user_id)
  = if (clock1 + days REFRESH_TOKEN_EXPIRE_DAYS <=? now)%Z
    then Raise {| status_code := HTTP_401_UNAUTHORIZED;
                  detail := "Token has expired";
                  headers := Some [("WWW-Authenticate", "Bearer")] |}
    else Raise {| status_code := HTTP_401_UNAUTHORIZED;
                  detail := "Invalid token type";
                  headers := None |}.
Proof.
  unfold get_current_user.
  rewrite decode_token_eq, issued_refresh_decodes, claims_exp.
  destruct (_ <=? now)%Z; [reflexivity|].
  rewrite claims_type. reflexivity.
Qed.

Lemma issued_refresh_refreshes now c1 c2 clock1 clock2 (user_id : value) :
  refresh_token now c1 c2 (create_refresh_token clock1 clock2 user_id)
  = if (clock1 + days REFRESH_TOKEN_EXPIRE_DAYS <=? now)%Z
    then Raise {| status_code := HTTP_401_UNAUTHORIZED;
                  detail := "Token has expired";
                  headers := Some [("WWW-Authenticate", "Bearer")] |}
    else Ok {| access_token := create_access_token c1 c2 user_id;
               refresh_token_field := create_refresh_token clock1 clock2 user_id;
               token_type := "bearer";
               expires_in := 900 |}.
Proof.
  unfold refresh_token.
  rewrite decode_token_eq, issued_refresh_decodes, claims_exp.
  destruct (_ <=? now)%Z; [reflexivity|].
  rewrite claims_type, claims_sub. reflexivity.
Qed.

(** X12. A refresh token issued for [s] is accepted by the refresh route
    until seven days after its issue, with an access token for [s] and the
    same refresh token as answer, and refused with [Expired] from then on;
    [get_current_user] never accepts it: [Invalid] while it lives,
    [Expired] afterwards. *)
Theorem refresh_token_round_trip (s : string) (clock1 clock2 now : Z) :
  let token := create_refresh_token clock1 clock2 (VStr s) in
  let expire := clock1 + days REFRESH_TOKEN_EXPIRE_DAYS in
  (now < expire ->
   forall c1 c2,
     refresh_token now c1 c2 token
     = Ok {| access_token := create_access_token c1 c2 (VStr s);
             refresh_token_field := token;
             token_type := "bearer";
             expires_in := 900 |})
  /\ (expire <= now ->
      forall c1 c2, fails_with (refresh_token now c1 c2 token) Expired)
  /\ (now < expire -> fails_with (get_current_user now token) Invalid)
  /\ (expire <= now -> fails_with (get_current_user now token) Expired).
Proof.
  intros token expire. subst token expire.
  split; [|split; [|split]].
  - intros Hn c1 c2. rewrite issued_refresh_refreshes.
    apply Z.leb_gt in Hn. rewrite Hn. reflexivity.
  - intros Hn c1 c2. rewrite issued_refresh_refreshes.
    apply Z.leb_le in Hn. rewrite Hn. eexists. repeat split.
  - intros Hn. rewrite issued_refresh_as_access.
    apply Z.leb_gt in Hn. rewrite Hn. eexists. repeat split.
  - intros Hn. rewrite issued_refresh_as_access.
    apply Z.leb_le in Hn. rewrite Hn. eexists. repeat split.
Qed.

(** *** Refreshing, and the routes behind [get_current_user] *)

(** X14. Refreshing extends the session: a refresh token created for [s],
    presented before its seven days are over, gives an access token that
    verifies to [s] for fifteen minutes from the refresh, even when by then
    the refresh token itself has expired, and the refresh token comes back
    unchanged. *)
Theorem refresh_extends_session (s : string) (clock1 clock2 t c1 c2 now : Z) :
  t < clock1 + days REFRESH_TOKEN_EXPIRE_DAYS ->
  now < c1 + minutes ACCESS_TOKEN_EXPIRE_MINUTES ->
  let presented : Token := create_refresh_token clock1 clock2 (VStr s) in
  exists answer,
    refresh_token t c1 c2 presented = Ok answer
    /\ get_current_user now (access_token answer) = Ok (VStr s)
    /\ refresh_token_field answer = presented.
Proof.
  intros Ht Hn presented. subst presented.
  rewrite issued_refresh_refreshes.
  apply Z.leb_gt in Ht. rewrite Ht.
  eexists. split; [reflexivity|]. cbn [access_token refresh_token_field].
  split; [|reflexivity].
  rewrite issued_access_verifies. apply Z.leb_gt in Hn. rewrite Hn. reflexivity.
Qed.

(** X15. While it lives, an access token created for [s] opens
    [protected_route], [admin_route] (no role is checked) and [logout], and
    the first two answer with the subject [s]; a refresh token opens none
    of them at any time: every route refuses it with the same 401. *)
Theorem tokens_and_routes (s : string) (clock1 clock2 now : Z) :
  let access : Token := create_access_token clock1 clock2 (VStr s) in
  (now < clock1 + minutes ACCESS_TOKEN_EXPIRE_MINUTES ->
   protected_route now access
   = Ok (<["message" := VStr "This is a protected route"]>
           (<["user_id" := VStr s]> ∅))
   /\ admin_route now access
      = Ok (<["message" := VStr "Admin access granted"]>
              (<["user_id" := VStr s]> ∅))
   /\ logout now access
      = Ok {[ "message" := VStr "Successfully logged out" ]})
  /\ forall c1 c2 user_id,
       let refresh : Token := create_refresh_token c1 c2 user_id in
       exists e,
         status_code e = 401
         /\ protected_route now refresh = Raise e
         /\ admin_route now refresh = Raise e
         /\ logout now refresh = Raise e.
Proof.
  intros access. subst access. split.
  - intros Hn. unfold protected_route, admin_route, logout.
    rewrite issued_access_verifies. apply Z.leb_gt in Hn. rewrite Hn.
    split; [reflexivity|]. split; reflexivity.
  - intros c1 c2 user_id refresh. subst refresh.
    unfold protected_route, admin_route, logout.
    rewrite issued_refresh_as_access.
    destruct (_ <=? now)%Z.
    + exists {| status_code := HTTP_401_UNAUTHORIZED;
                detail := "Token has expired";
                headers := Some [("WWW-Authenticate", "Bearer")] |}.
      split; [reflexivity|]. split; [reflexivity|]. split; reflexivity.
    + exists {| status_code := HTTP_401_UNAUTHORIZED;
                detail := "Invalid token type";
                headers := None |}.
      split; [reflexivity|]. split; [reflexivity|]. split; reflexivity.
Qed.

End Tokens.

(** *** The theorems at work, on the plain library *)

Lemma refresh_token_round_trip_witness :
  let token : plain_token := create_refresh_token 1000 1001 (VStr "user_123") in
  refresh_token 5000 5000 5001 token
  = Ok {| access_token := create_access_token 5000 5001 (VStr "user_123");
          refresh_token_field := token;
          token_type := "bearer";
          expires_in := 900 |}
  /\ fails_with (refresh_token 605800 605800 605801 token) Expired
  /\ fails_with (get_current_user 5000 token) Invalid.
Proof.
  intros token. split; [|split].
  - apply (proj1 (refresh_token_round_trip "user_123" 1000 1001 5000)).
    reflexivity.
  - apply (proj1 (proj2 (refresh_token_round_trip "user_123" 1000 1001 605800))).
    discriminate.
  - apply (proj1 (proj2 (proj2
             (refresh_token_round_trip "user_123" 1000 1001 5000)))).
    reflexivity.
Defined.

Lemma refresh_extends_session_witness :
  let presented : plain_token := create_refresh_token 0 0 (VStr "user_123") in
  exists answer,
    refresh_token 604799 604799 604799 presented = Ok answer
    /\ get_current_user 605000 (access_token answer) = Ok (VStr "user_123")
    /\ refresh_token_field answer = presented.
Proof.
  apply (refresh_extends_session "user_123" 0 0 604799 604799 604799 605000);
    reflexivity.
Defined.

Lemma tokens_and_routes_witness :
  let access : plain_token := create_access_token 1000 1001 (VStr "user_123") in
  protected_route 1200 access
  = Ok (<["message" := VStr "This is a protected route"]>
          (<["user_id" := VStr "user_123"]> ∅))
  /\ admin_route 1200 access
     = Ok (<["message" := VStr "Admin access granted"]>
             (<["user_id" := VStr "user_123"]> ∅))
  /\ logout 1200 access
     = Ok {[ "message" := VStr "Successfully logged out" ]}.
Proof.
  intros access.
  apply (proj1 (tokens_and_routes "user_123" 1000 1001 1200)).
  reflexivity.
Defined.

End JwtMore.
